(** * Tracktion Engine: InsertPlugin and AuxSendPlugin

    A shallow embedding of
    [modules/tracktion_engine/plugins/internal/tracktion_InsertPlugin.cpp]
    and of the aux-send plugin source, with the properties of the
    send/return insert and of the aux-send gain/mute controller. *)

From Stdlib Require Import ZArith List Bool Ascii String Lia.
From Stdlib Require Import Floats.SpecFloat.
From Stdlib Require DecimalString DecimalPos DecimalZ.
Import ListNotations.
Local Open Scope Z_scope.

(* ================================================================== *)
(** * Part I: definitions                                               *)
(* ================================================================== *)

(** ** IEEE-754 arithmetic

    C++ [float] is binary32 (24-bit significand, emax 128) and [double] is
    binary64 (53-bit significand, emax 1024); both are instances of the
    Standard Library's executable specification [SpecFloat], rounding to
    nearest, ties to even. *)

Definition float32 := spec_float.
Definition float64 := spec_float.

Module F32.
Definition prec : Z := 24.
Definition emax : Z := 128.
Definition add : float32 -> float32 -> float32 := SFadd prec emax.
Definition sub : float32 -> float32 -> float32 := SFsub prec emax.
Definition mul : float32 -> float32 -> float32 := SFmul prec emax.
Definition div : float32 -> float32 -> float32 := SFdiv prec emax.
(** [(float) z] for an integer [z]. *)
Definition of_Z (z : Z) : float32 := binary_normalize prec emax z 0 false.
(** The literal written [n/d] in decimal, e.g. [0.01f] is [lit 1 100]:
    both are the binary32 value nearest to the same rational. *)
Definition lit (n d : Z) : float32 := div (of_Z n) (of_Z d).
Definition valid (x : float32) : bool := valid_binary prec emax x.
End F32.

Module F64.
Definition prec : Z := 53.
Definition emax : Z := 1024.
Definition add : float64 -> float64 -> float64 := SFadd prec emax.
Definition sub : float64 -> float64 -> float64 := SFsub prec emax.
Definition div : float64 -> float64 -> float64 := SFdiv prec emax.
Definition of_Z (z : Z) : float64 := binary_normalize prec emax z 0 false.
Definition lit (n d : Z) : float64 := div (of_Z n) (of_Z d).
End F64.

(** The comparisons of C++ on floating-point operands. *)
Definition flt (a b : spec_float) : bool := SFltb a b.   (* a <  b *)
Definition fle (a b : spec_float) : bool := SFleb a b.   (* a <= b *)
Definition feq (a b : spec_float) : bool := SFeqb a b.   (* a == b *)
Definition fne (a b : spec_float) : bool := negb (SFeqb a b). (* a != b *)

Definition is_finite (x : spec_float) : bool :=
  match x with
  | S754_zero _ | S754_finite _ _ _ => true
  | _ => false
  end.

(** The float literals of the aux-send source. *)
Definition db_zero    : float32 := S754_zero false.                 (* 0.0f    *)
Definition db_nudge   : float32 := Eval vm_compute in F32.lit 1 100.    (* 0.01f   *)
Definition db_floor   : float32 := Eval vm_compute in F32.of_Z (-100).  (* -100.0f *)
Definition db_mute_threshold : float32 := Eval vm_compute in F32.of_Z (-90). (* -90.0f *)
Definition db_minus_89_9 : float32 := Eval vm_compute in F32.lit (-899) 10. (* -89.9f *)

(** ** AuxSendPlugin *)

(** The plugin's state: the current value of the attached automatable
    parameter [gain] (a fader position) and the cached property
    [lastVolumeBeforeMute] (decibels). *)
Record AuxSendPlugin := mkAuxSend {
  gain_currentValue : float32;
  lastVolumeBeforeMute : float32
}.

Section AuxSendModel.
(** [decibelsToVolumeFaderPosition] and [volumeFaderPositionToDB] are
    engine utilities defined outside these sources: they are parameters
    of the model. *)
Variable decibelsToVolumeFaderPosition : float32 -> float32.
Variable volumeFaderPositionToDB : float32 -> float32.

(** So is the automatable parameter: [valueAfterSet v] is what
    [gain->getCurrentValue ()] returns once
    [gain->setParameter (v, sendNotification)] has run. *)
Variable valueAfterSet : float32 -> float32.

(** Modelled from the spec: [getGainDb] is declared in the class header,
    which is not among the sources; gain is held as a fader position and
    read back in decibels through the position-to-decibel conversion, as
    the parameter's own value-to-string callback in the constructor does. *)
Definition getGainDb (p : AuxSendPlugin) : float32 :=
  volumeFaderPositionToDB (gain_currentValue p).

Definition setParameter (newPos : float32) (p : AuxSendPlugin) : AuxSendPlugin :=
  mkAuxSend (valueAfterSet newPos) (lastVolumeBeforeMute p).

Definition setGainDb (newDb : float32) (p : AuxSendPlugin) : AuxSendPlugin :=
  let newPos := decibelsToVolumeFaderPosition newDb in
  if fne (gain_currentValue p) newPos
  then setParameter newPos p
  else p.

(** Assignment to the cached property [lastVolumeBeforeMute]. *)
Definition setLastVolumeBeforeMute (v : float32) (p : AuxSendPlugin) : AuxSendPlugin :=
  mkAuxSend (gain_currentValue p) v.

Definition setMute (b : bool) (p : AuxSendPlugin) : AuxSendPlugin :=
  if b then
    let p1 := setLastVolumeBeforeMute (getGainDb p) p in
    let p2 := setGainDb (F32.sub (lastVolumeBeforeMute p1) db_nudge) p1 in
    setGainDb db_floor p2
  else
    let p1 := if flt (lastVolumeBeforeMute p) db_floor
              then setLastVolumeBeforeMute db_zero p
              else p in
    let p2 := setGainDb (F32.add (getGainDb p1) db_nudge) p1 in
    setGainDb (lastVolumeBeforeMute p2) p2.

Definition isMute (p : AuxSendPlugin) : bool :=
  fle (getGainDb p) db_mute_threshold.

(** What [setGainDb] leaves in the parameter for a target position: the
    value the parameter took when the target was pushed to it, or the old
    value, which compared equal to the target. *)
Definition holdsPosition (pos target : float32) : Prop :=
  pos = valueAfterSet target \/ feq pos target = true.
End AuxSendModel.

(** "Within 0.01 dB", computed in binary32. *)
Definition within_nudge (a b : float32) : bool :=
  fle (SFabs (F32.sub a b)) db_nudge.

(** Stand-ins for the three parameters, used to run the model on concrete
    inputs: a linear fader, exact on the values used below, and a parameter
    that clamps to the range [{ 0.0f, 1.0f }] it is created with. *)
Definition linearDbToPos (db : float32) : float32 :=
  if flt db_floor db
  then F32.div (F32.add db (F32.of_Z 100)) (F32.of_Z 128)
  else S754_zero false.

Definition linearPosToDb (pos : float32) : float32 :=
  if flt (S754_zero false) pos
  then F32.sub (F32.mul pos (F32.of_Z 128)) (F32.of_Z 100)
  else db_floor.

Definition clampToRange (v : float32) : float32 :=
  if flt v (S754_zero false) then S754_zero false
  else if flt (F32.of_Z 1) v then F32.of_Z 1
  else v.

(** ** InsertPlugin: device enumeration *)

(** [juce::StringArray] is a list of strings; [indexOf] returns the index
    of the first element equal to its argument, or -1. *)
Definition StringArray := list string.

Fixpoint indexOfFrom (s : StringArray) (x : string) (i : Z) : Z :=
  match s with
  | [] => -1
  | y :: s' => if String.eqb y x then i else indexOfFrom s' x (i + 1)
  end.

Definition indexOf (s : StringArray) (x : string) : Z := indexOfFrom s x 0.

Definition size (s : StringArray) : Z := Z.of_nat (List.length s).

(** [juce::BigInteger] used as a bit set: a non-negative integer;
    [operator[]] is false for a negative index. *)
Definition BigInteger := Z.
Definition setBit (b : BigInteger) (i : Z) : BigInteger := Z.setbit b i.
Definition getBit (b : BigInteger) (i : Z) : bool := Z.testbit b i.

Record InputDevice := mkInputDevice {
  in_getName : string;
  in_getAlias : string;
  in_isEnabled : bool;
  in_isMidiInputDevice : bool          (* dynamic_cast<MidiInputDevice*> succeeds *)
}.

Inductive OutputKind :=
| WaveOutput
| MidiOutput (isConnectedToExternalController : bool).

Record OutputDevice := mkOutputDevice {
  out_getName : string;
  out_getAlias : string;
  out_isEnabled : bool;
  out_kind : OutputKind
}.

(** The device manager as the two loops see it: [getInputDevice (i)] and
    [getOutputDeviceAt (i)] for [i] below the device counts, each possibly
    a null pointer. *)
Record DeviceManager := mkDeviceManager {
  inputDevices : list (option InputDevice);
  outputDevices : list (option OutputDevice)
}.

(** The four out-parameters [s], [a], [hasAudio], [hasMidi]. *)
Record DeviceNames := mkDeviceNames {
  names : StringArray;
  aliases : StringArray;
  hasAudio : BigInteger;
  hasMidi : BigInteger
}.

Definition noNames : DeviceNames := mkDeviceNames [] [] 0 0.

Definition addInputDevice (acc : DeviceNames) (d : option InputDevice) : DeviceNames :=
  match d with
  | None => acc
  | Some dev =>
      if negb (in_isEnabled dev) then acc
      else
        let i := size (names acc) in
        let audio := if in_isMidiInputDevice dev then hasAudio acc else setBit (hasAudio acc) i in
        let midi := if in_isMidiInputDevice dev then setBit (hasMidi acc) i else hasMidi acc in
        mkDeviceNames (names acc ++ [in_getName dev]) (aliases acc ++ [in_getAlias dev]) audio midi
  end.

Definition getPossibleInputDeviceNames (dm : DeviceManager) (acc : DeviceNames) : DeviceNames :=
  fold_left addInputDevice (inputDevices dm) acc.

Definition addOutputDevice (acc : DeviceNames) (d : option OutputDevice) : DeviceNames :=
  match d with
  | None => acc
  | Some dev =>
      if negb (out_isEnabled dev) then acc
      else
        let i := size (names acc) in
        match out_kind dev with
        | MidiOutput true => acc
        | MidiOutput false =>
            mkDeviceNames (names acc ++ [out_getName dev]) (aliases acc ++ [out_getAlias dev])
                          (hasAudio acc) (setBit (hasMidi acc) i)
        | WaveOutput =>
            mkDeviceNames (names acc ++ [out_getName dev]) (aliases acc ++ [out_getAlias dev])
                          (setBit (hasAudio acc) i) (hasMidi acc)
        end
  end.

Definition getPossibleOutputDeviceNames (dm : DeviceManager) (acc : DeviceNames) : DeviceNames :=
  fold_left addOutputDevice (outputDevices dm) acc.

Inductive DeviceType := noDevice | audioDevice | midiDevice.

Definition DeviceType_eqb (a b : DeviceType) : bool :=
  match a, b with
  | noDevice, noDevice | audioDevice, audioDevice | midiDevice, midiDevice => true
  | _, _ => false
  end.

(** The lambda of [updateDeviceTypes]. *)
Definition setDeviceType (audio midi : BigInteger) (index : Z) : DeviceType :=
  if getBit audio index then audioDevice
  else if getBit midi index then midiDevice
  else noDevice.

(** Name lookup followed by classification, as each of the two
    [setDeviceType] calls does. *)
Definition resolve (acc : DeviceNames) (configured : string) : DeviceType :=
  setDeviceType (hasAudio acc) (hasMidi acc) (indexOf (names acc) configured).

(** ** InsertPlugin: buffers *)

Definition Channel := list float32.
(** A channel array ([choc::buffer::ChannelArrayBuffer<float>],
    [juce::AudioBuffer<float>]): one list of frames per channel. *)
Definition Buffer := list Channel.

Definition sample_zero : float32 := S754_zero false.

Definition getNumChannels (b : Buffer) : nat := List.length b.
Definition getNumFrames (b : Buffer) : nat :=
  match b with
  | [] => 0%nat
  | c :: _ => List.length c
  end.

(** The frame count of every channel, in channel order. *)
Definition frameCounts (b : Buffer) : list nat := map (@List.length float32) b.

(** [(choc::buffer::FrameCount) n]: conversion of an [int] to [uint32_t]. *)
Definition toFrameCount (n : Z) : nat := Z.to_nat (n mod 2 ^ 32).

Definition resizeChannel (numFrames : nat) (c : Channel) : Channel :=
  firstn numFrames c ++ repeat sample_zero (numFrames - List.length c).

(** [resize ({ numChannels, numFrames })]: the new shape, keeping the old
    content where the shapes overlap. *)
Definition resize (numChannels numFrames : nat) (b : Buffer) : Buffer :=
  map (resizeChannel numFrames) (firstn numChannels b)
  ++ repeat (repeat sample_zero numFrames) (numChannels - List.length b).

Definition clear (b : Buffer) : Buffer := map (map (fun _ => sample_zero)) b.

Fixpoint clearChannelFrom (i startSample numSamples : Z) (c : Channel) : Channel :=
  match c with
  | [] => []
  | x :: c' =>
      (if (startSample <=? i) && (i <? startSample + numSamples) then sample_zero else x)
      :: clearChannelFrom (i + 1) startSample numSamples c'
  end.

(** [AudioBuffer::clear (startSample, numSamples)]. *)
Definition clearRange (startSample numSamples : Z) (b : Buffer) : Buffer :=
  map (clearChannelFrom 0 startSample numSamples) b.

(** [view.fromFrame (start)]: the frames from [start] on. *)
Definition fromFrame (start : nat) (b : Buffer) : Buffer := map (skipn start) b.

Fixpoint copyChannel (dest src : Channel) : Channel :=
  match dest, src with
  | _ :: dest', y :: src' => y :: copyChannel dest' src'
  | _, _ => dest
  end.

(** [choc::buffer::copyIntersection (dest, src)]: the frames and channels
    both buffers have are copied, the rest of [dest] is left alone. *)
Fixpoint copyIntersection (dest src : Buffer) : Buffer :=
  match dest, src with
  | d :: dest', s :: src' => copyChannel d s :: copyIntersection dest' src'
  | _, _ => dest
  end.

(** [copyIntersection (dest.fromFrame (start), src)], seen from [dest]. *)
Fixpoint copyIntersectionFromFrame (start : nat) (dest src : Buffer) : Buffer :=
  match dest, src with
  | d :: dest', s :: src' =>
      (firstn start d ++ copyChannel (skipn start d) s)
      :: copyIntersectionFromFrame start dest' src'
  | _, _ => dest
  end.

Record MidiMessage := mkMidiMessage {
  midi_bytes : list Z;
  midi_timestamp : float64
}.

(** Modelled from the spec: [MidiMessageArray] is defined outside these
    sources; it is an event list where [clear] empties it, [mergeFrom] adds
    the other list's events and [mergeFromAndClear] moves them, draining
    the other list. *)
Definition MidiMessageArray := list MidiMessage.

Definition mergeFrom (dest src : MidiMessageArray) : MidiMessageArray := dest ++ src.

Definition mergeFromAndClear (dest src : MidiMessageArray)
  : MidiMessageArray * MidiMessageArray := (dest ++ src, []).

(** ** InsertPlugin: state and operations *)

Record InsertPlugin := mkInsertPlugin {
  inputDevice : string;
  outputDevice : string;
  manualAdjustMs : float64;
  sendDeviceType : DeviceType;
  returnDeviceType : DeviceType;
  sendBuffer : Buffer;
  returnBuffer : Buffer;
  sendMidiBuffer : MidiMessageArray;
  returnMidiBuffer : MidiMessageArray;
  latencySeconds : float64
}.

Record PluginInitialisationInfo := mkInitInfo {
  sampleRate : float64;
  blockSizeSamples : Z
}.

Record PluginRenderContext := mkRenderContext {
  destBuffer : option Buffer;                       (* nullable *)
  bufferForMidiMessages : option MidiMessageArray;  (* nullable *)
  bufferStartSample : Z;
  bufferNumSamples : Z
}.

Definition withDeviceTypes (send ret : DeviceType) (p : InsertPlugin) : InsertPlugin :=
  mkInsertPlugin (inputDevice p) (outputDevice p) (manualAdjustMs p) send ret
                 (sendBuffer p) (returnBuffer p) (sendMidiBuffer p) (returnMidiBuffer p)
                 (latencySeconds p).

Definition withBuffers (sb rb : Buffer) (sm rm : MidiMessageArray) (p : InsertPlugin)
  : InsertPlugin :=
  mkInsertPlugin (inputDevice p) (outputDevice p) (manualAdjustMs p)
                 (sendDeviceType p) (returnDeviceType p) sb rb sm rm (latencySeconds p).

Definition withLatencySeconds (l : float64) (p : InsertPlugin) : InsertPlugin :=
  mkInsertPlugin (inputDevice p) (outputDevice p) (manualAdjustMs p)
                 (sendDeviceType p) (returnDeviceType p)
                 (sendBuffer p) (returnBuffer p) (sendMidiBuffer p) (returnMidiBuffer p) l.

Definition getLatencySeconds (p : InsertPlugin) : float64 := latencySeconds p.

Definition initialiseWithoutStopping (info : PluginInitialisationInfo) (p : InsertPlugin)
  : InsertPlugin :=
  withLatencySeconds
    (F64.add (F64.div (manualAdjustMs p) (F64.of_Z 1000))
             (F64.div (F64.of_Z (blockSizeSamples info)) (sampleRate info)))
    p.

Definition initialise (info : PluginInitialisationInfo) (p : InsertPlugin) : InsertPlugin :=
  let frames := toFrameCount (blockSizeSamples info) in
  let sb := clear (resize 2 frames (sendBuffer p)) in
  let rb := clear (resize 2 frames (returnBuffer p)) in
  initialiseWithoutStopping info
    (withBuffers sb rb (sendMidiBuffer p) (returnMidiBuffer p) p).


Definition applyToBuffer (p : InsertPlugin) (fc : PluginRenderContext)
  : InsertPlugin * PluginRenderContext :=
  let start := toFrameCount (bufferStartSample fc) in
  (* Fill send buffer with data *)
  let '(p1, midi1) :=
    match sendDeviceType p, destBuffer fc, bufferForMidiMessages fc with
    | audioDevice, Some dest, _ =>
        (withBuffers (copyIntersection (sendBuffer p) (fromFrame start dest))
                     (returnBuffer p) (sendMidiBuffer p) (returnMidiBuffer p) p,
         bufferForMidiMessages fc)
    | midiDevice, _, Some midi =>
        let '(sm, midi') := mergeFromAndClear [] midi in
        (withBuffers (sendBuffer p) (returnBuffer p) sm (returnMidiBuffer p) p,
         Some midi')
    | _, _, _ => (p, bufferForMidiMessages fc)
    end in
  (* Clear the context buffers *)
  let midi2 := option_map (fun _ => []) midi1 in
  let dest2 := option_map (clearRange (bufferStartSample fc) (bufferNumSamples fc))
                          (destBuffer fc) in
  let fc2 := mkRenderContext dest2 midi2 (bufferStartSample fc) (bufferNumSamples fc) in
  if DeviceType_eqb (sendDeviceType p1) noDevice then (p1, fc2)
  else
    (* Copy the return buffer into the context *)
    match returnDeviceType p1, dest2, midi2 with
    | audioDevice, Some dest, _ =>
        (p1, mkRenderContext (Some (copyIntersectionFromFrame start dest (returnBuffer p1)))
                             midi2 (bufferStartSample fc) (bufferNumSamples fc))
    | midiDevice, _, Some midi =>
        let '(midi', rm) := mergeFromAndClear midi (returnMidiBuffer p1) in
        (withBuffers (sendBuffer p1) (returnBuffer p1) (sendMidiBuffer p1) rm p1,
         mkRenderContext dest2 (Some midi') (bufferStartSample fc) (bufferNumSamples fc))
    | _, _, _ => (p1, fc2)
    end.

Definition updateDeviceTypes (dm : DeviceManager) (p : InsertPlugin) : InsertPlugin :=
  let devs1 := getPossibleInputDeviceNames dm noNames in
  let ret := resolve devs1 (inputDevice p) in
  let devs2 := getPossibleOutputDeviceNames dm devs1 in
  let send := resolve devs2 (outputDevice p) in
  withDeviceTypes send ret p.

Definition fillSendBuffer (p : InsertPlugin)
    (destAudio : option Buffer) (destMidi : option MidiMessageArray)
  : InsertPlugin * option Buffer * option MidiMessageArray :=
  match sendDeviceType p with
  | audioDevice =>
      (p, option_map (fun d => copyIntersection d (sendBuffer p)) destAudio, destMidi)
  | midiDevice =>
      match destMidi with
      | Some dm =>
          let '(dm', sm) := mergeFromAndClear dm (sendMidiBuffer p) in
          (withBuffers (sendBuffer p) (returnBuffer p) sm (returnMidiBuffer p) p,
           destAudio, Some dm')
      | None => (p, destAudio, destMidi)
      end
  | noDevice => (p, destAudio, destMidi)
  end.

Definition fillReturnBuffer (p : InsertPlugin)
    (srcAudio : option Buffer) (srcMidi : option MidiMessageArray) : InsertPlugin :=
  match returnDeviceType p with
  | audioDevice =>
      match srcAudio with
      | Some src =>
          withBuffers (sendBuffer p) (copyIntersection (returnBuffer p) src)
                      (sendMidiBuffer p) (returnMidiBuffer p) p
      | None => p
      end
  | midiDevice =>
      match srcMidi with
      | Some src =>
          withBuffers (sendBuffer p) (returnBuffer p) (sendMidiBuffer p)
                      (mergeFrom (returnMidiBuffer p) src) p
      | None => p
      end
  | noDevice => p
  end.

(** The calls that reach a plugin between [initialise] and [deinitialise]
    from the render and device threads. *)
Inductive BlockOp :=
| OpApplyToBuffer (fc : PluginRenderContext)
| OpFillSendBuffer (destAudio : option Buffer) (destMidi : option MidiMessageArray)
| OpFillReturnBuffer (srcAudio : option Buffer) (srcMidi : option MidiMessageArray).

Definition runOp (p : InsertPlugin) (op : BlockOp) : InsertPlugin :=
  match op with
  | OpApplyToBuffer fc => fst (applyToBuffer p fc)
  | OpFillSendBuffer a m => fst (fst (fillSendBuffer p a m))
  | OpFillReturnBuffer a m => fillReturnBuffer p a m
  end.

Definition runOps (p : InsertPlugin) (ops : list BlockOp) : InsertPlugin :=
  fold_left runOp ops p.

(** The enumeration the specification describes for output devices: the
    enabled devices, MIDI outputs connected to an external controller left
    out, in device-manager order. *)
Definition listedOutput (d : OutputDevice) : bool :=
  out_isEnabled d &&
  match out_kind d with
  | MidiOutput true => false
  | _ => true
  end.

Fixpoint presentDevices {A : Type} (l : list (option A)) : list A :=
  match l with
  | [] => []
  | Some d :: l' => d :: presentDevices l'
  | None :: l' => presentDevices l'
  end.

Definition listedOutputs (dm : DeviceManager) : list OutputDevice :=
  filter listedOutput (presentDevices (outputDevices dm)).

Definition listedInputs (dm : DeviceManager) : list InputDevice :=
  filter in_isEnabled (presentDevices (inputDevices dm)).

Definition outputIsAudio (d : OutputDevice) : bool :=
  match out_kind d with
  | WaveOutput => true
  | MidiOutput _ => false
  end.

Definition inputIsAudio (d : InputDevice) : bool := negb (in_isMidiInputDevice d).

(** Bit [i] of the capability set that records, from position [base] on,
    which devices of [l] satisfy [f]. *)
Definition bitAt {A : Type} (l : list A) (f : A -> bool) (base i : Z) : bool :=
  (base <=? i) &&
  match nth_error l (Z.to_nat (i - base)) with
  | Some d => f d
  | None => false
  end.

(** The capability the specification assigns to list position [i]. *)
Definition classify (audio midi : BigInteger) (i : Z) : DeviceType :=
  if Z.testbit audio i then audioDevice
  else if Z.testbit midi i then midiDevice
  else noDevice.

(** ** InsertPlugin: the remaining members *)

(** [InsertPlugin::hasAudio] and [InsertPlugin::hasMidi]. *)
Definition InsertPlugin_hasAudio (p : InsertPlugin) : bool :=
  DeviceType_eqb (sendDeviceType p) audioDevice
  || DeviceType_eqb (returnDeviceType p) audioDevice.

Definition InsertPlugin_hasMidi (p : InsertPlugin) : bool :=
  DeviceType_eqb (sendDeviceType p) midiDevice
  || DeviceType_eqb (returnDeviceType p) midiDevice.

Definition getPossibleDeviceNames (dm : DeviceManager) (acc : DeviceNames) (forInput : bool)
  : DeviceNames :=
  if forInput
  then getPossibleInputDeviceNames dm acc
  else getPossibleOutputDeviceNames dm acc.

(** Sample [f] of channel [c], when the buffer has it. *)
Definition getSample (b : Buffer) (c f : nat) : option float32 :=
  match nth_error b c with
  | Some ch => nth_error ch f
  | None => None
  end.

(** ** AuxSendPlugin: names *)

(** [int] arithmetic, two's complement. *)
Definition wrap_int (z : Z) : Z := (z + 2 ^ 31) mod 2 ^ 32 - 2 ^ 31.

(** [juce::String (int)]: the decimal digits, with a minus sign for a
    negative number. *)
Definition String_of_int (n : Z) : string :=
  DecimalString.NilZero.string_of_int (Z.to_int n).

Definition isNotEmpty (s : string) : bool :=
  match s with
  | EmptyString => false
  | String _ _ => true
  end.

Section AuxSendNames.
(** [edit.getAuxBusName (bus)] and the translation lookup [TRANS] are
    defined outside these sources. *)
Variable getAuxBusName : Z -> string.
Variable TRANS : string -> string.

Definition getDefaultBusName (index : Z) : string :=
  ("Bus #" ++ String_of_int (wrap_int (index + 1)))%string.

(** [getBusName], [getName] and [getShortName] read the member
    [busNumber], here their argument. *)
Definition getBusName (busNumber : Z) : string :=
  let busName := getAuxBusName busNumber in
  if isNotEmpty busName then busName else getDefaultBusName busNumber.

Definition AuxSend_getName (busNumber : Z) : string :=
  let nm := getAuxBusName busNumber in
  if isNotEmpty nm then ("S:" ++ nm)%string
  else (TRANS "Aux Send" ++ " #" ++ String_of_int (wrap_int (busNumber + 1)))%string.

Definition AuxSend_getShortName (busNumber : Z) : string :=
  let nm := getAuxBusName busNumber in
  if isNotEmpty nm then ("S:" ++ nm)%string
  else (TRANS "Send" ++ ":" ++ String_of_int (wrap_int (busNumber + 1)))%string.

(** One turn of the loop of [getBusNames]. *)
Definition busEntry (i : Z) : string :=
  let nm := getDefaultBusName i in
  if isNotEmpty (getAuxBusName i)
  then (nm ++ " (" ++ getAuxBusName i ++ ")")%string
  else nm.

Definition getBusNames (maxNumBusses : Z) : StringArray :=
  map busEntry (map Z.of_nat (seq 0 (Z.to_nat maxNumBusses))).
End AuxSendNames.

(** What follows the default name in an entry of [getBusNames]: nothing,
    or text that starts with a space. *)
Definition isEntrySuffix (s : string) : bool :=
  match s with
  | EmptyString => true
  | String a _ => Ascii.eqb a " "%char
  end.

(** A decimal digit, as a character. *)
Definition isDigit (a : Ascii.ascii) : bool :=
  let n := Ascii.nat_of_ascii a in (48 <=? n)%nat && (n <=? 57)%nat.

Fixpoint allDigits (s : string) : bool :=
  match s with
  | EmptyString => true
  | String a s' => isDigit a && allDigits s'
  end.

(* ================================================================== *)
(** * Part II: properties                                               *)
(* ================================================================== *)

Example literals_binary32 :
  db_nudge = S754_finite false 10737418 (-30) /\
  db_floor = S754_finite true 13107200 (-17) /\
  db_mute_threshold = S754_finite true 11796480 (-17) /\
  db_minus_89_9 = S754_finite true 11783373 (-17) /\
  forallb F32.valid [db_zero; db_nudge; db_floor; db_mute_threshold; db_minus_89_9] = true.
Proof. vm_compute. repeat split. Qed.

(** ** Comparisons of [SpecFloat] values *)

Lemma SFcompare_swap (a b : spec_float) :
  SFcompare b a = option_map CompOpp (SFcompare a b).
Proof.
  destruct a as [sa | sa | | sa ma ea], b as [sb | sb | | sb mb eb]; simpl;
    try reflexivity;
    try (destruct sa; reflexivity);
    try (destruct sb; reflexivity);
    try (destruct sa, sb; reflexivity).
  assert (Hm : PosDef.Pos.compare_cont Eq mb ma
               = CompOpp (PosDef.Pos.compare_cont Eq ma mb))
    by exact (eq_sym (Pos.compare_cont_antisym ma mb Eq)).
  rewrite (Z.compare_antisym ea eb), Hm.
  destruct sa, sb; simpl; try reflexivity;
    destruct (ea ?= eb); simpl; reflexivity.
Qed.

Lemma flt_asym (a b : spec_float) : flt a b = true -> flt b a = false.
Proof.
  unfold flt, SFltb. rewrite (SFcompare_swap a b).
  destruct (SFcompare a b) as [[ | | ] | ]; simpl; congruence.
Qed.

Lemma feq_sym (a b : spec_float) : feq a b = feq b a.
Proof.
  unfold feq, SFeqb. rewrite (SFcompare_swap a b).
  destruct (SFcompare a b) as [[ | | ] | ]; reflexivity.
Qed.

Lemma feq_cases (a b : spec_float) :
  feq a b = true ->
  a = b \/ (exists sa sb, a = S754_zero sa /\ b = S754_zero sb).
Proof.
  unfold feq, SFeqb.
  destruct a as [sa | sa | | sa ma ea], b as [sb | sb | | sb mb eb]; simpl;
    try discriminate;
    try (destruct sa; discriminate);
    try (destruct sb; discriminate).
  - intros _. right. exists sa, sb. split; reflexivity.
  - destruct sa, sb; try discriminate; intros _; left; reflexivity.
  - destruct sa, sb; try discriminate;
      destruct (ea ?= eb) eqn:He; try discriminate;
      apply Z.compare_eq in He; subst eb;
      destruct (PosDef.Pos.compare_cont Eq ma mb) eqn:Hm; try discriminate;
      apply (Pos.compare_eq ma mb) in Hm; subst mb; intros _; left; reflexivity.
Qed.

Lemma holdsPosition_cases (store : float32 -> float32) (pos target : float32) :
  holdsPosition store pos target ->
  pos = store target \/ pos = target \/
  (exists sa sb, pos = S754_zero sa /\ target = S754_zero sb).
Proof.
  intros [H | H]; [left; exact H | right].
  destruct (feq_cases _ _ H) as [E | E]; [left; exact E | right; exact E].
Qed.

Lemma sub_self_zero (g : float32) :
  is_finite g = true -> F32.sub g g = S754_zero false.
Proof.
  destruct g as [s | s | | s m e]; simpl; try discriminate; intros _.
  - destruct s; reflexivity.
  - unfold F32.sub, SFsub. rewrite Z.sub_diag. reflexivity.
Qed.

(** Conversions that are exact inverses at a finite level are in
    particular within 0.01 dB there. *)
Lemma within_nudge_refl (g : float32) : is_finite g = true -> within_nudge g g = true.
Proof.
  intros H. unfold within_nudge. rewrite (sub_self_zero g H). reflexivity.
Qed.

(** ** AuxSendPlugin: gain and mute *)

Section AuxSendProperties.
Variable decibelsToVolumeFaderPosition : float32 -> float32.
Variable volumeFaderPositionToDB : float32 -> float32.
Variable valueAfterSet : float32 -> float32.

Local Abbreviation d2p := decibelsToVolumeFaderPosition.
Local Abbreviation p2d := volumeFaderPositionToDB.
Local Abbreviation getGainDb' := (getGainDb p2d).
Local Abbreviation setGainDb' := (setGainDb d2p valueAfterSet).
Local Abbreviation setMute' := (setMute d2p p2d valueAfterSet).
Local Abbreviation isMute' := (isMute p2d).
Local Abbreviation holds := (holdsPosition valueAfterSet).

Lemma setGainDb_lastVolume (db : float32) (p : AuxSendPlugin) :
  lastVolumeBeforeMute (setGainDb' db p) = lastVolumeBeforeMute p.
Proof.
  unfold setGainDb. destruct (fne _ _); reflexivity.
Qed.

(** After [setGainDb (db)] the parameter holds the position of [db]. *)
Lemma setGainDb_position (db : float32) (p : AuxSendPlugin) :
  holds (gain_currentValue (setGainDb' db p)) (d2p db).
Proof.
  unfold setGainDb, fne, holdsPosition.
  destruct (SFeqb (gain_currentValue p) (d2p db)) eqn:E; simpl.
  - right. exact E.
  - left. reflexivity.
Qed.

Lemma setMute_true_lastVolume (p : AuxSendPlugin) :
  lastVolumeBeforeMute (setMute' true p) = getGainDb' p.
Proof.
  unfold setMute. rewrite !setGainDb_lastVolume. reflexivity.
Qed.

Lemma setMute_true_position (p : AuxSendPlugin) :
  holds (gain_currentValue (setMute' true p)) (d2p db_floor).
Proof.
  unfold setMute. apply setGainDb_position.
Qed.

(** [setMute (false)] when the guard does not fire: the saved level is
    kept and written back. *)
Lemma setMute_false_restores (p : AuxSendPlugin) :
  flt (lastVolumeBeforeMute p) db_floor = false ->
  lastVolumeBeforeMute (setMute' false p) = lastVolumeBeforeMute p /\
  holds (gain_currentValue (setMute' false p)) (d2p (lastVolumeBeforeMute p)).
Proof.
  intros H. unfold setMute. rewrite H. rewrite !setGainDb_lastVolume.
  split; [reflexivity | ].
  apply setGainDb_position.
Qed.

(** [setMute (false)] when the guard fires. *)
Lemma setMute_false_resets (p : AuxSendPlugin) :
  flt (lastVolumeBeforeMute p) db_floor = true ->
  lastVolumeBeforeMute (setMute' false p) = db_zero /\
  holds (gain_currentValue (setMute' false p)) (d2p db_zero).
Proof.
  intros H. unfold setMute. rewrite H. rewrite !setGainDb_lastVolume.
  split; [reflexivity | ].
  apply (setGainDb_position db_zero).
Qed.

(** C2 (amended). For every saved pre-mute level strictly below -100 dB,
    [setMute (false)] resets the saved value to 0 dB and leaves the gain
    parameter holding the 0 dB fader position, whatever the saved level
    was; read back through conversions that are inverse at 0 dB, the gain
    is 0 dB. *)
Theorem setMute_false_below_floor_resets_to_0dB (p : AuxSendPlugin)
    (Hbelow : flt (lastVolumeBeforeMute p) db_floor = true)
    (Hinv0 : forall pos, holds pos (d2p db_zero) -> p2d pos = db_zero) :
  lastVolumeBeforeMute (setMute' false p) = db_zero /\
  holds (gain_currentValue (setMute' false p)) (d2p db_zero) /\
  getGainDb' (setMute' false p) = db_zero.
Proof.
  destruct (setMute_false_resets p Hbelow) as [Hl Hp].
  repeat split; try assumption.
  unfold getGainDb. apply Hinv0. exact Hp.
Qed.

(** C3. For every starting gain strictly above -100 dB, [setMute (true)]
    followed by [setMute (false)] writes the saved starting level back:
    the parameter ends holding the fader position of the starting gain, so
    the final gain is the starting gain to within 0.01 dB, given that the
    conversions and the parameter are that accurate at the starting
    gain. *)
Theorem setMute_round_trip (p : AuxSendPlugin)
    (Habove : flt db_floor (getGainDb' p) = true)
    (Hconv : forall pos, holds pos (d2p (getGainDb' p)) ->
                         within_nudge (p2d pos) (getGainDb' p) = true) :
  let p' := setMute' false (setMute' true p) in
  lastVolumeBeforeMute p' = getGainDb' p /\
  holds (gain_currentValue p') (d2p (getGainDb' p)) /\
  within_nudge (getGainDb' p') (getGainDb' p) = true.
Proof.
  intros p'. subst p'.
  pose proof (setMute_true_lastVolume p) as Hsaved.
  assert (Hguard : flt (lastVolumeBeforeMute (setMute' true p)) db_floor = false).
  { rewrite Hsaved. apply flt_asym. exact Habove. }
  destruct (setMute_false_restores _ Hguard) as [Hl Hp].
  rewrite Hsaved in Hl, Hp.
  repeat split; try assumption.
  unfold getGainDb at 1. apply Hconv. exact Hp.
Qed.

(** With conversions and a parameter that are exact at the starting gain,
    the round trip is exact. *)
Lemma setMute_round_trip_exact (p : AuxSendPlugin) :
  flt db_floor (getGainDb' p) = true ->
  (forall pos, holds pos (d2p (getGainDb' p)) -> p2d pos = getGainDb' p) ->
  getGainDb' (setMute' false (setMute' true p)) = getGainDb' p.
Proof.
  intros Habove Hinv.
  pose proof (setMute_true_lastVolume p) as Hsaved.
  assert (Hguard : flt (lastVolumeBeforeMute (setMute' true p)) db_floor = false).
  { rewrite Hsaved. apply flt_asym. exact Habove. }
  destruct (setMute_false_restores _ Hguard) as [_ Hp].
  rewrite Hsaved in Hp.
  unfold getGainDb at 1. apply Hinv. exact Hp.
Qed.

(** Conversions and a parameter that are exact at a finite gain, as the
    specification describes the conversions, are within 0.01 dB there. *)
Lemma exact_inverses_are_accurate (g : float32) :
  is_finite g = true ->
  (forall pos, holds pos (d2p g) -> p2d pos = g) ->
  forall pos, holds pos (d2p g) -> within_nudge (p2d pos) g = true.
Proof.
  intros Hfin Hinv pos Hpos. rewrite (Hinv pos Hpos).
  apply within_nudge_refl. exact Hfin.
Qed.

(** C4. [isMute ()] is true exactly when the current gain is at most
    -90 dB: false at -89.9 dB, true at -100 dB. *)
Theorem isMute_iff_gain_at_most_minus_90 (p : AuxSendPlugin) :
  (isMute' p = true <-> fle (getGainDb' p) db_mute_threshold = true) /\
  (getGainDb' p = db_minus_89_9 -> isMute' p = false) /\
  (getGainDb' p = db_floor -> isMute' p = true).
Proof.
  unfold isMute. split; [tauto | ].
  split; intros ->; reflexivity.
Qed.

(** C10. Muting a send that already sits at the -100 dB floor stores
    -100 dB as the saved level, whatever was saved before; the following
    [setMute (false)] writes the floor back, so the gain is still -100 dB
    and [isMute ()] is still true. *)
Theorem setMute_twice_stays_muted (p : AuxSendPlugin)
    (Hfloor : getGainDb' p = db_floor)
    (Hinv : forall pos, holds pos (d2p db_floor) -> p2d pos = db_floor) :
  let muted := setMute' true p in
  let unmuted := setMute' false muted in
  lastVolumeBeforeMute muted = db_floor /\
  lastVolumeBeforeMute unmuted = db_floor /\
  holds (gain_currentValue unmuted) (d2p db_floor) /\
  getGainDb' unmuted = db_floor /\
  isMute' unmuted = true.
Proof.
  intros muted unmuted. subst muted unmuted.
  pose proof (setMute_true_lastVolume p) as Hsaved. rewrite Hfloor in Hsaved.
  assert (Hguard : flt (lastVolumeBeforeMute (setMute' true p)) db_floor = false).
  { rewrite Hsaved. reflexivity. }
  destruct (setMute_false_restores _ Hguard) as [Hl Hp].
  rewrite Hsaved in Hl, Hp.
  assert (Hg : getGainDb' (setMute' false (setMute' true p)) = db_floor).
  { unfold getGainDb. apply Hinv. exact Hp. }
  repeat split; try assumption.
  unfold isMute. rewrite Hg. reflexivity.
Qed.
End AuxSendProperties.

(** *** The aux send run on concrete states *)

Example linear_fader_exact :
  map (fun z => linearPosToDb (clampToRange (linearDbToPos (F32.of_Z z))))
      [-99; -90; -6; 0; 6]
  = map F32.of_Z [-99; -90; -6; 0; 6] /\
  linearPosToDb (clampToRange (linearDbToPos db_minus_89_9)) = db_minus_89_9 /\
  linearPosToDb (clampToRange (linearDbToPos db_floor)) = db_floor.
Proof. vm_compute. repeat split. Qed.

(** Every value the parameter can hold for a given target position, by
    cases, each settled by evaluation. *)
Ltac by_positions H :=
  let E := fresh "E" in
  let sa := fresh "sa" in
  let sb := fresh "sb" in
  destruct (holdsPosition_cases _ _ _ H) as [E | [E | (sa & sb & E & ?)]];
  rewrite E;
  [ vm_compute; reflexivity
  | vm_compute; reflexivity
  | first [ discriminate | destruct sa; vm_compute; reflexivity ] ].

Lemma setMute_false_below_floor_resets_to_0dB_witness :
  let p := mkAuxSend (S754_zero false) (F32.of_Z (-120)) in
  let p' := setMute linearDbToPos linearPosToDb clampToRange false p in
  flt (lastVolumeBeforeMute p) db_floor = true /\
  lastVolumeBeforeMute p' = db_zero /\
  getGainDb linearPosToDb p' = db_zero.
Proof.
  intros p p'.
  assert (Hbelow : flt (lastVolumeBeforeMute p) db_floor = true)
    by (vm_compute; reflexivity).
  assert (Hinv0 : forall pos,
             holdsPosition clampToRange pos (linearDbToPos db_zero) ->
             linearPosToDb pos = db_zero).
  { intros pos H. by_positions H. }
  destruct (setMute_false_below_floor_resets_to_0dB
              linearDbToPos linearPosToDb clampToRange p Hbelow Hinv0)
    as (Hl & _ & Hg).
  split; [exact Hbelow | split; [exact Hl | exact Hg]].
Defined.

(** C2 (as stated) fails at exactly -100 dB: the guard is strict, so for
    any conversions and parameter the saved level stays -100 dB and the
    parameter is left holding the -100 dB position; with the linear fader
    the gain read back is -100 dB, not 0 dB. *)
Lemma setMute_false_at_floor_keeps_saved_level :
  let p := mkAuxSend (S754_zero false) db_floor in
  fle (lastVolumeBeforeMute p) db_floor = true /\
  (forall d2p p2d store,
      lastVolumeBeforeMute (setMute d2p p2d store false p) = db_floor /\
      holdsPosition store (gain_currentValue (setMute d2p p2d store false p))
                    (d2p db_floor)) /\
  db_floor <> db_zero /\
  getGainDb linearPosToDb (setMute linearDbToPos linearPosToDb clampToRange false p)
  = db_floor.
Proof.
  intros p. split; [reflexivity | ]. split.
  - intros d2p p2d store.
    apply (setMute_false_restores d2p p2d store p). reflexivity.
  - split; [discriminate | vm_compute; reflexivity].
Qed.

Lemma setMute_round_trip_witness :
  let p := mkAuxSend (linearDbToPos (F32.of_Z (-6))) db_zero in
  let p' := setMute linearDbToPos linearPosToDb clampToRange false
              (setMute linearDbToPos linearPosToDb clampToRange true p) in
  getGainDb linearPosToDb p = F32.of_Z (-6) /\
  flt db_floor (getGainDb linearPosToDb p) = true /\
  lastVolumeBeforeMute p' = F32.of_Z (-6) /\
  within_nudge (getGainDb linearPosToDb p') (getGainDb linearPosToDb p) = true.
Proof.
  intros p p'.
  assert (Hg : getGainDb linearPosToDb p = F32.of_Z (-6)) by (vm_compute; reflexivity).
  assert (Habove : flt db_floor (getGainDb linearPosToDb p) = true)
    by (vm_compute; reflexivity).
  assert (Hconv : forall pos,
             holdsPosition clampToRange pos (linearDbToPos (getGainDb linearPosToDb p)) ->
             within_nudge (linearPosToDb pos) (getGainDb linearPosToDb p) = true).
  { intros pos H. rewrite Hg in *. by_positions H. }
  destruct (setMute_round_trip linearDbToPos linearPosToDb clampToRange p Habove Hconv)
    as (Hl & _ & Hw).
  split; [exact Hg | split; [exact Habove | split; [ | exact Hw]]].
  rewrite <- Hg. exact Hl.
Defined.

Lemma isMute_iff_gain_at_most_minus_90_witness :
  let quiet := mkAuxSend (linearDbToPos db_minus_89_9) db_zero in
  let floor := mkAuxSend (S754_zero false) db_zero in
  (getGainDb linearPosToDb quiet = db_minus_89_9 /\ isMute linearPosToDb quiet = false) /\
  (getGainDb linearPosToDb floor = db_floor /\ isMute linearPosToDb floor = true).
Proof.
  intros quiet floor.
  assert (Hq : getGainDb linearPosToDb quiet = db_minus_89_9) by (vm_compute; reflexivity).
  assert (Hf : getGainDb linearPosToDb floor = db_floor) by (vm_compute; reflexivity).
  split; (split; [assumption | ]).
  - exact (proj1 (proj2 (isMute_iff_gain_at_most_minus_90 linearPosToDb quiet)) Hq).
  - exact (proj2 (proj2 (isMute_iff_gain_at_most_minus_90 linearPosToDb floor)) Hf).
Defined.

Lemma setMute_twice_stays_muted_witness :
  let p := mkAuxSend (S754_zero false) (F32.of_Z (-6)) in
  let muted := setMute linearDbToPos linearPosToDb clampToRange true p in
  let unmuted := setMute linearDbToPos linearPosToDb clampToRange false muted in
  getGainDb linearPosToDb p = db_floor /\
  lastVolumeBeforeMute p = F32.of_Z (-6) /\
  lastVolumeBeforeMute muted = db_floor /\
  getGainDb linearPosToDb unmuted = db_floor /\
  isMute linearPosToDb unmuted = true.
Proof.
  intros p muted unmuted.
  assert (Hfloor : getGainDb linearPosToDb p = db_floor) by (vm_compute; reflexivity).
  assert (Hinv : forall pos,
             holdsPosition clampToRange pos (linearDbToPos db_floor) ->
             linearPosToDb pos = db_floor).
  { intros pos H. by_positions H. }
  destruct (setMute_twice_stays_muted
              linearDbToPos linearPosToDb clampToRange p Hfloor Hinv)
    as (Hm & _ & _ & Hg & Hi).
  split; [exact Hfloor | split; [reflexivity | ]].
  split; [exact Hm | split; [exact Hg | exact Hi]].
Defined.

(** ** InsertPlugin: latency *)

Lemma latencySeconds_initialiseWithoutStopping info p :
  getLatencySeconds (initialiseWithoutStopping info p)
  = F64.add (F64.div (manualAdjustMs p) (F64.of_Z 1000))
            (F64.div (F64.of_Z (blockSizeSamples info)) (sampleRate info)).
Proof. reflexivity. Qed.

Lemma manualAdjustMs_withBuffers sb rb sm rm p :
  manualAdjustMs (withBuffers sb rb sm rm p) = manualAdjustMs p.
Proof. reflexivity. Qed.

(** C8. After [initialise] or [initialiseWithoutStopping] with block size
    [b], sample rate [r] and manual adjustment [m] ms, the reported latency
    is [m / 1000.0 + (double) b / r] in binary64; for b = 512, r = 48000,
    m = 10 it is the double [0.01 + 512.0 / 48000.0], which lies within
    1e-7 of 0.0206667. *)
Theorem latency_after_initialisation :
  (forall info p,
      getLatencySeconds (initialise info p)
      = F64.add (F64.div (manualAdjustMs p) (F64.of_Z 1000))
                (F64.div (F64.of_Z (blockSizeSamples info)) (sampleRate info)) /\
      getLatencySeconds (initialiseWithoutStopping info p)
      = getLatencySeconds (initialise info p)) /\
  (forall inD outD send ret sb rb sm rm old,
      let p := mkInsertPlugin inD outD (F64.of_Z 10) send ret sb rb sm rm old in
      let info := mkInitInfo (F64.of_Z 48000) 512 in
      let l := getLatencySeconds (initialise info p) in
      l = F64.add (F64.lit 1 100) (F64.div (F64.of_Z 512) (F64.of_Z 48000)) /\
      l = S754_finite false 5956761107135376 (-58) /\
      fle (SFabs (F64.sub l (F64.lit 206667 10000000))) (F64.lit 1 10000000) = true).
Proof.
  split.
  - intros info p. split; reflexivity.
  - intros inD outD send ret sb rb sm rm old p info l.
    assert (El : l = S754_finite false 5956761107135376 (-58)).
    { subst l p info. unfold initialise.
      rewrite latencySeconds_initialiseWithoutStopping, manualAdjustMs_withBuffers.
      simpl. vm_compute. reflexivity. }
    rewrite El. vm_compute. repeat split.
Qed.

(** ** InsertPlugin: the block algorithm *)

Lemma nth_error_clearChannelFrom (k startSample numSamples : Z) (c : Channel) (i : nat) :
  nth_error (clearChannelFrom k startSample numSamples c) i
  = option_map
      (fun x => if (startSample <=? k + Z.of_nat i)
                   && (k + Z.of_nat i <? startSample + numSamples)
                then sample_zero else x)
      (nth_error c i).
Proof.
  revert k i. induction c as [ | x c IH]; intros k i.
  - destruct i; reflexivity.
  - destruct i as [ | i]; simpl.
    + rewrite Z.add_0_r. reflexivity.
    + rewrite IH.
      replace (k + 1 + Z.of_nat i) with (k + Z.pos (Pos.of_succ_nat i)) by lia.
      reflexivity.
Qed.

Lemma length_clearChannelFrom (k startSample numSamples : Z) (c : Channel) :
  List.length (clearChannelFrom k startSample numSamples c) = List.length c.
Proof.
  revert k. induction c as [ | x c IH]; intros k; simpl; [reflexivity | ].
  rewrite IH. reflexivity.
Qed.

(** C5. With send capability None, one block clears the live MIDI list
    and the live destination samples of the block's range, sample by
    sample, and returns the plugin unchanged: send and return audio
    buffers and send and return MIDI buffers are what they were. *)
Theorem applyToBuffer_without_send_device (p : InsertPlugin) (fc : PluginRenderContext)
    (Hnone : sendDeviceType p = noDevice) :
  let p' := fst (applyToBuffer p fc) in
  let fc' := snd (applyToBuffer p fc) in
  (p' = p /\
   sendBuffer p' = sendBuffer p /\ sendMidiBuffer p' = sendMidiBuffer p /\
   returnBuffer p' = returnBuffer p /\ returnMidiBuffer p' = returnMidiBuffer p) /\
  bufferForMidiMessages fc' = option_map (fun _ => []) (bufferForMidiMessages fc) /\
  destBuffer fc'
  = option_map (clearRange (bufferStartSample fc) (bufferNumSamples fc)) (destBuffer fc) /\
  (forall dest c ch i x,
      destBuffer fc = Some dest ->
      nth_error dest c = Some ch ->
      nth_error ch i = Some x ->
      exists dest' ch',
        destBuffer fc' = Some dest' /\
        nth_error dest' c = Some ch' /\
        List.length ch' = List.length ch /\
        nth_error ch' i
        = Some (if (bufferStartSample fc <=? Z.of_nat i)
                   && (Z.of_nat i <? bufferStartSample fc + bufferNumSamples fc)
                then sample_zero else x)).
Proof.
  intros p' fc'.
  assert (E : applyToBuffer p fc
              = (p, mkRenderContext
                      (option_map (clearRange (bufferStartSample fc) (bufferNumSamples fc))
                                  (destBuffer fc))
                      (option_map (fun _ => []) (bufferForMidiMessages fc))
                      (bufferStartSample fc) (bufferNumSamples fc))).
  { unfold applyToBuffer. rewrite Hnone. simpl. rewrite Hnone. reflexivity. }
  subst p' fc'. rewrite E. simpl.
  split; [repeat split | ].
  split; [reflexivity | ].
  split; [reflexivity | ].
  intros dest c ch i x Hd Hc Hi. rewrite Hd. simpl.
  exists (clearRange (bufferStartSample fc) (bufferNumSamples fc) dest).
  exists (clearChannelFrom 0 (bufferStartSample fc) (bufferNumSamples fc) ch).
  split; [reflexivity | ].
  split.
  - unfold clearRange. rewrite nth_error_map, Hc. reflexivity.
  - split; [apply length_clearChannelFrom | ].
    rewrite nth_error_clearChannelFrom, Hi. reflexivity.
Qed.

Lemma applyToBuffer_without_send_device_witness :
  let one := F32.of_Z 1 in
  let p := mkInsertPlugin "" "" (F64.of_Z 0) noDevice audioDevice
             [[one; one]; [one; one]] [[one; one]; [one; one]]
             [mkMidiMessage [144; 60; 100] (F64.of_Z 0)]
             [mkMidiMessage [128; 60; 0] (F64.of_Z 0)] (F64.of_Z 0) in
  let fc := mkRenderContext
              (Some [map F32.of_Z [1; 2; 3; 4]; map F32.of_Z [5; 6; 7; 8]])
              (Some [mkMidiMessage [176; 7; 127] (F64.of_Z 0)]) 1 2 in
  sendDeviceType p = noDevice /\
  fst (applyToBuffer p fc) = p /\
  bufferForMidiMessages (snd (applyToBuffer p fc)) = Some [] /\
  destBuffer (snd (applyToBuffer p fc))
  = Some [[F32.of_Z 1; sample_zero; sample_zero; F32.of_Z 4];
          [F32.of_Z 5; sample_zero; sample_zero; F32.of_Z 8]].
Proof.
  intros one p fc.
  destruct (applyToBuffer_without_send_device p fc eq_refl)
    as ((Hp & _) & Hm & Hd & _).
  split; [reflexivity | ].
  split; [exact Hp | ].
  split; [exact Hm | ].
  rewrite Hd. vm_compute. reflexivity.
Defined.

(** ** InsertPlugin: buffer shapes *)

Lemma length_copyChannel (dest src : Channel) :
  List.length (copyChannel dest src) = List.length dest.
Proof.
  revert src. induction dest as [ | x dest IH]; intros [ | y src]; simpl;
    try reflexivity.
  rewrite IH. reflexivity.
Qed.

Lemma frameCounts_copyIntersection (dest src : Buffer) :
  frameCounts (copyIntersection dest src) = frameCounts dest.
Proof.
  revert src. induction dest as [ | d dest IH]; intros [ | s src]; simpl;
    try reflexivity.
  rewrite length_copyChannel.
  unfold frameCounts in IH. rewrite IH. reflexivity.
Qed.

Lemma frameCounts_clear (b : Buffer) : frameCounts (clear b) = frameCounts b.
Proof.
  unfold frameCounts, clear. rewrite map_map.
  apply map_ext. intros c. apply length_map.
Qed.

Lemma length_resizeChannel (numFrames : nat) (c : Channel) :
  List.length (resizeChannel numFrames c) = numFrames.
Proof.
  unfold resizeChannel.
  rewrite length_app, length_firstn, repeat_length. lia.
Qed.

Lemma frameCounts_resize (numChannels numFrames : nat) (b : Buffer) :
  frameCounts (resize numChannels numFrames b) = repeat numFrames numChannels.
Proof.
  unfold frameCounts, resize.
  revert b. induction numChannels as [ | n IH]; intros b.
  - reflexivity.
  - destruct b as [ | c b]; simpl.
    + rewrite repeat_length. f_equal.
      specialize (IH []). rewrite firstn_nil in IH. simpl in IH.
      rewrite Nat.sub_0_r in IH. exact IH.
    + rewrite length_resizeChannel. f_equal. apply IH.
Qed.

Lemma getNumFrames_frameCounts (b : Buffer) :
  getNumFrames b = hd 0%nat (frameCounts b).
Proof. destruct b; reflexivity. Qed.

Lemma getNumChannels_frameCounts (b : Buffer) :
  getNumChannels b = List.length (frameCounts b).
Proof. unfold getNumChannels, frameCounts. rewrite length_map. reflexivity. Qed.

(** No per-block call changes the shape of the send or return buffer. *)
Lemma runOp_frameCounts (p : InsertPlugin) (op : BlockOp) :
  frameCounts (sendBuffer (runOp p op)) = frameCounts (sendBuffer p) /\
  frameCounts (returnBuffer (runOp p op)) = frameCounts (returnBuffer p).
Proof.
  destruct op as [fc | a m | a m]; simpl.
  - unfold applyToBuffer.
    destruct (sendDeviceType p) eqn:Es, (destBuffer fc), (bufferForMidiMessages fc);
      simpl; rewrite ?Es; simpl;
      destruct (returnDeviceType p); simpl;
      rewrite ?frameCounts_copyIntersection; split; reflexivity.
  - unfold fillSendBuffer.
    destruct (sendDeviceType p); [ | | destruct m]; simpl; split; reflexivity.
  - unfold fillReturnBuffer.
    destruct (returnDeviceType p); [ | destruct a | destruct m]; simpl;
      rewrite ?frameCounts_copyIntersection; split; reflexivity.
Qed.

Lemma runOps_frameCounts (ops : list BlockOp) (p : InsertPlugin) :
  frameCounts (sendBuffer (runOps p ops)) = frameCounts (sendBuffer p) /\
  frameCounts (returnBuffer (runOps p ops)) = frameCounts (returnBuffer p).
Proof.
  unfold runOps. revert p. induction ops as [ | op ops IH]; intros p; simpl.
  - split; reflexivity.
  - destruct (IH (runOp p op)) as [Hs Hr].
    destruct (runOp_frameCounts p op) as [Hs' Hr'].
    rewrite Hs, Hr, Hs', Hr'. split; reflexivity.
Qed.

Lemma initialise_frameCounts (info : PluginInitialisationInfo) (p : InsertPlugin) :
  let n := toFrameCount (blockSizeSamples info) in
  frameCounts (sendBuffer (initialise info p)) = [n; n] /\
  frameCounts (returnBuffer (initialise info p)) = [n; n].
Proof.
  simpl. rewrite !frameCounts_clear, !frameCounts_resize. split; reflexivity.
Qed.

Lemma toFrameCount_in_range (b : Z) :
  0 <= b < 2 ^ 31 -> Z.of_nat (toFrameCount b) = b.
Proof.
  intros H. unfold toFrameCount.
  rewrite Z.mod_small by lia. lia.
Qed.

(** C9. After [initialise] with a block size [b] (a sample count, within
    the range of [int]), and after any sequence of [applyToBuffer],
    [fillSendBuffer] and [fillReturnBuffer] calls, the send and return
    buffers still have two channels of [b] frames; none of the three calls
    changes the shape of either buffer, in any state. *)
Theorem frame_count_fixed_after_initialise
    (info : PluginInitialisationInfo) (p : InsertPlugin) (ops : list BlockOp)
    (Hb : 0 <= blockSizeSamples info < 2 ^ 31) :
  let p' := runOps (initialise info p) ops in
  (Z.of_nat (getNumFrames (sendBuffer p')) = blockSizeSamples info /\
   Z.of_nat (getNumFrames (returnBuffer p')) = blockSizeSamples info) /\
  (getNumChannels (sendBuffer p') = 2%nat /\ getNumChannels (returnBuffer p') = 2%nat) /\
  (Forall (fun c => Z.of_nat (List.length c) = blockSizeSamples info) (sendBuffer p') /\
   Forall (fun c => Z.of_nat (List.length c) = blockSizeSamples info) (returnBuffer p')) /\
  (forall q op,
      frameCounts (sendBuffer (runOp q op)) = frameCounts (sendBuffer q) /\
      frameCounts (returnBuffer (runOp q op)) = frameCounts (returnBuffer q)).
Proof.
  intros p'.
  destruct (runOps_frameCounts ops (initialise info p)) as [Hs Hr].
  destruct (initialise_frameCounts info p) as [Is Ir].
  fold p' in Hs, Hr. rewrite Is in Hs. rewrite Ir in Hr.
  pose proof (toFrameCount_in_range _ Hb) as Hn.
  assert (Hall : forall b : Buffer,
             frameCounts b = [toFrameCount (blockSizeSamples info);
                              toFrameCount (blockSizeSamples info)] ->
             Forall (fun c => Z.of_nat (List.length c) = blockSizeSamples info) b).
  { intros b Hbuf. destruct b as [ | c1 [ | c2 [ | c3 b]]]; try discriminate.
    simpl in Hbuf. injection Hbuf as H1 H2.
    repeat constructor; rewrite ?H1, ?H2; exact Hn. }
  split; [ | split; [ | split]].
  - rewrite !getNumFrames_frameCounts, Hs, Hr. simpl. split; exact Hn.
  - rewrite !getNumChannels_frameCounts, Hs, Hr. split; reflexivity.
  - split; apply Hall; assumption.
  - exact runOp_frameCounts.
Qed.

Lemma frame_count_fixed_after_initialise_witness :
  let one := F32.of_Z 1 in
  let p := mkInsertPlugin "In" "Out" (F64.of_Z 10) audioDevice audioDevice
             [] [] [] [] (F64.of_Z 0) in
  let info := mkInitInfo (F64.of_Z 48000) 4 in
  let fc := mkRenderContext (Some [repeat one 6; repeat one 6; repeat one 6])
                            (Some []) 1 4 in
  let ops := [OpApplyToBuffer fc;
              OpFillReturnBuffer (Some [repeat one 9]) None;
              OpFillSendBuffer (Some [repeat one 2; repeat one 2]) None;
              OpApplyToBuffer fc] in
  0 <= blockSizeSamples info < 2 ^ 31 /\
  Z.of_nat (getNumFrames (sendBuffer (runOps (initialise info p) ops))) = 4 /\
  Z.of_nat (getNumFrames (returnBuffer (runOps (initialise info p) ops))) = 4.
Proof.
  intros one p info fc ops.
  assert (Hb : 0 <= blockSizeSamples info < 2 ^ 31) by (simpl; lia).
  split; [exact Hb | ].
  exact (proj1 (frame_count_fixed_after_initialise info p ops Hb)).
Defined.

(** ** InsertPlugin: device enumeration *)

Lemma bitAt_nil {A : Type} (f : A -> bool) (base i : Z) : bitAt [] f base i = false.
Proof.
  unfold bitAt. destruct (Z.to_nat (i - base)); simpl; apply andb_false_r.
Qed.

Lemma bitAt_cons {A : Type} (d : A) (l : list A) (f : A -> bool) (base i : Z) :
  bitAt (d :: l) f base i = ((base =? i) && f d) || bitAt l f (base + 1) i.
Proof.
  unfold bitAt.
  destruct (Z.compare_spec base i) as [E | L | G].
  - subst i. rewrite Z.sub_diag, Z.eqb_refl, Z.leb_refl. simpl.
    replace (base + 1 <=? base) with false by (symmetry; apply Z.leb_gt; lia).
    simpl. rewrite orb_false_r. reflexivity.
  - replace (base =? i) with false by (symmetry; apply Z.eqb_neq; lia).
    replace (base <=? i) with true by (symmetry; apply Z.leb_le; lia).
    replace (base + 1 <=? i) with true by (symmetry; apply Z.leb_le; lia).
    replace (Z.to_nat (i - base)) with (S (Z.to_nat (i - (base + 1)))) by lia.
    reflexivity.
  - replace (base =? i) with false by (symmetry; apply Z.eqb_neq; lia).
    replace (base <=? i) with false by (symmetry; apply Z.leb_gt; lia).
    replace (base + 1 <=? i) with false by (symmetry; apply Z.leb_gt; lia).
    reflexivity.
Qed.

Lemma getBit_setBit (b : BigInteger) (n i : Z) :
  0 <= n -> getBit (setBit b n) i = (n =? i) || getBit b i.
Proof. intros H. unfold getBit, setBit. apply Z.setbit_eqb. exact H. Qed.

Lemma size_nonneg (s : StringArray) : 0 <= size s.
Proof. unfold size. lia. Qed.

Lemma size_app_one (s : StringArray) (x : string) : size (s ++ [x]) = size s + 1.
Proof. unfold size. rewrite length_app. simpl. lia. Qed.

Lemma In_presentDevices {A : Type} (l : list (option A)) (d : A) :
  In d (presentDevices l) <-> In (Some d) l.
Proof.
  induction l as [ | [x | ] l IH]; simpl.
  - tauto.
  - rewrite IH. split; intros [H | H]; auto; left; congruence.
  - rewrite IH. split; [auto | intros [H | H]; [discriminate | exact H]].
Qed.

Lemma addOutputDevice_skipped (dev : OutputDevice) (acc : DeviceNames) :
  listedOutput dev = false -> addOutputDevice acc (Some dev) = acc.
Proof.
  unfold listedOutput, addOutputDevice.
  destruct (out_isEnabled dev); simpl; [ | reflexivity].
  destruct (out_kind dev) as [ | [ | ]]; try discriminate. reflexivity.
Qed.

Lemma addOutputDevice_listed (dev : OutputDevice) (acc : DeviceNames) :
  listedOutput dev = true ->
  addOutputDevice acc (Some dev)
  = mkDeviceNames (names acc ++ [out_getName dev]) (aliases acc ++ [out_getAlias dev])
      (if outputIsAudio dev then setBit (hasAudio acc) (size (names acc)) else hasAudio acc)
      (if outputIsAudio dev then hasMidi acc else setBit (hasMidi acc) (size (names acc))).
Proof.
  unfold listedOutput, addOutputDevice, outputIsAudio.
  destruct (out_isEnabled dev); simpl; [ | discriminate].
  destruct (out_kind dev) as [ | [ | ]]; try discriminate; reflexivity.
Qed.

(** The output loop, for any starting contents of the four out-parameters:
    it appends the listed devices and sets one bit per appended name. *)
Lemma fold_addOutputDevice (l : list (option OutputDevice)) (acc : DeviceNames) :
  let r := fold_left addOutputDevice l acc in
  let listed := filter listedOutput (presentDevices l) in
  names r = names acc ++ map out_getName listed /\
  aliases r = aliases acc ++ map out_getAlias listed /\
  (forall i, getBit (hasAudio r) i
             = getBit (hasAudio acc) i || bitAt listed outputIsAudio (size (names acc)) i) /\
  (forall i, getBit (hasMidi r) i
             = getBit (hasMidi acc) i
               || bitAt listed (fun d => negb (outputIsAudio d)) (size (names acc)) i).
Proof.
  revert acc. induction l as [ | d l IH]; intros acc.
  - simpl. rewrite !app_nil_r.
    repeat split; intros i; rewrite bitAt_nil, orb_false_r; reflexivity.
  - destruct d as [dev | ]; [ | apply IH].
    cbn [fold_left presentDevices filter].
    destruct (listedOutput dev) eqn:El.
    + rewrite (addOutputDevice_listed dev acc El).
      match goal with
      | |- context [fold_left addOutputDevice l ?a] =>
          destruct (IH a) as (Hn & Ha & Hau & Hmi)
      end.
      cbn [names aliases hasAudio hasMidi] in Hn, Ha, Hau, Hmi.
      rewrite size_app_one in Hau, Hmi.
      cbv zeta.
      split; [rewrite Hn, <- app_assoc; reflexivity | ].
      split; [rewrite Ha, <- app_assoc; reflexivity | ].
      split; intros i.
      * rewrite Hau, bitAt_cons.
        destruct (outputIsAudio dev).
        -- rewrite getBit_setBit by apply size_nonneg.
           rewrite andb_true_r.
           destruct (size (names acc) =? i), (getBit (hasAudio acc) i); reflexivity.
        -- rewrite andb_false_r. reflexivity.
      * rewrite Hmi, bitAt_cons.
        destruct (outputIsAudio dev); simpl.
        -- rewrite andb_false_r. reflexivity.
        -- rewrite getBit_setBit by apply size_nonneg.
           rewrite andb_true_r.
           destruct (size (names acc) =? i), (getBit (hasMidi acc) i); reflexivity.
    + rewrite (addOutputDevice_skipped dev acc El). apply IH.
Qed.

Lemma addInputDevice_skipped (dev : InputDevice) (acc : DeviceNames) :
  in_isEnabled dev = false -> addInputDevice acc (Some dev) = acc.
Proof. unfold addInputDevice. intros ->. reflexivity. Qed.

Lemma addInputDevice_listed (dev : InputDevice) (acc : DeviceNames) :
  in_isEnabled dev = true ->
  addInputDevice acc (Some dev)
  = mkDeviceNames (names acc ++ [in_getName dev]) (aliases acc ++ [in_getAlias dev])
      (if inputIsAudio dev then setBit (hasAudio acc) (size (names acc)) else hasAudio acc)
      (if inputIsAudio dev then hasMidi acc else setBit (hasMidi acc) (size (names acc))).
Proof.
  unfold addInputDevice, inputIsAudio. intros ->. simpl.
  destruct (in_isMidiInputDevice dev); reflexivity.
Qed.

Lemma fold_addInputDevice (l : list (option InputDevice)) (acc : DeviceNames) :
  let r := fold_left addInputDevice l acc in
  let listed := filter in_isEnabled (presentDevices l) in
  names r = names acc ++ map in_getName listed /\
  aliases r = aliases acc ++ map in_getAlias listed /\
  (forall i, getBit (hasAudio r) i
             = getBit (hasAudio acc) i || bitAt listed inputIsAudio (size (names acc)) i) /\
  (forall i, getBit (hasMidi r) i
             = getBit (hasMidi acc) i
               || bitAt listed (fun d => negb (inputIsAudio d)) (size (names acc)) i).
Proof.
  revert acc. induction l as [ | d l IH]; intros acc.
  - simpl. rewrite !app_nil_r.
    repeat split; intros i; rewrite bitAt_nil, orb_false_r; reflexivity.
  - destruct d as [dev | ]; [ | apply IH].
    cbn [fold_left presentDevices filter].
    destruct (in_isEnabled dev) eqn:El.
    + rewrite (addInputDevice_listed dev acc El).
      match goal with
      | |- context [fold_left addInputDevice l ?a] =>
          destruct (IH a) as (Hn & Ha & Hau & Hmi)
      end.
      cbn [names aliases hasAudio hasMidi] in Hn, Ha, Hau, Hmi.
      rewrite size_app_one in Hau, Hmi.
      cbv zeta.
      split; [rewrite Hn, <- app_assoc; reflexivity | ].
      split; [rewrite Ha, <- app_assoc; reflexivity | ].
      split; intros i.
      * rewrite Hau, bitAt_cons.
        destruct (inputIsAudio dev).
        -- rewrite getBit_setBit by apply size_nonneg.
           rewrite andb_true_r.
           destruct (size (names acc) =? i), (getBit (hasAudio acc) i); reflexivity.
        -- rewrite andb_false_r. reflexivity.
      * rewrite Hmi, bitAt_cons.
        destruct (inputIsAudio dev); simpl.
        -- rewrite andb_false_r. reflexivity.
        -- rewrite getBit_setBit by apply size_nonneg.
           rewrite andb_true_r.
           destruct (size (names acc) =? i), (getBit (hasMidi acc) i); reflexivity.
    + rewrite (addInputDevice_skipped dev acc El). apply IH.
Qed.

(** C6. For every device-manager state and whatever the out-parameters
    hold on entry, [getPossibleOutputDeviceNames] appends exactly the
    enabled output devices that are not MIDI outputs connected to an
    external controller, in device-manager order: one name, one alias and
    one capability bit per listed device, at consecutive positions. A MIDI
    output connected to an external controller and a disabled device are
    not among the listed devices, so they take no slot and set no bit. *)
Theorem getPossibleOutputDeviceNames_lists_eligible_devices
    (dm : DeviceManager) (acc : DeviceNames) :
  let r := getPossibleOutputDeviceNames dm acc in
  (forall d, In d (listedOutputs dm) <->
             In (Some d) (outputDevices dm) /\
             out_isEnabled d = true /\
             out_kind d <> MidiOutput true) /\
  names r = names acc ++ map out_getName (listedOutputs dm) /\
  aliases r = aliases acc ++ map out_getAlias (listedOutputs dm) /\
  size (names r) = size (names acc) + Z.of_nat (List.length (listedOutputs dm)) /\
  (forall i, getBit (hasAudio r) i
             = getBit (hasAudio acc) i
               || bitAt (listedOutputs dm) outputIsAudio (size (names acc)) i) /\
  (forall i, getBit (hasMidi r) i
             = getBit (hasMidi acc) i
               || bitAt (listedOutputs dm) (fun d => negb (outputIsAudio d))
                        (size (names acc)) i).
Proof.
  intros r.
  destruct (fold_addOutputDevice (outputDevices dm) acc) as (Hn & Ha & Hau & Hmi).
  fold (getPossibleOutputDeviceNames dm acc) in Hn, Ha, Hau, Hmi.
  fold (listedOutputs dm) in Hn, Ha, Hau, Hmi. fold r in Hn, Ha, Hau, Hmi.
  split.
  - intros d. unfold listedOutputs. rewrite filter_In, In_presentDevices.
    unfold listedOutput.
    destruct (out_isEnabled d); simpl.
    + destruct (out_kind d) as [ | [ | ]]; split; intros [H1 H2];
        try discriminate; try (split; [exact H1 | ]);
        try reflexivity; try (split; [reflexivity | discriminate]).
      destruct H2 as [_ H2]. exfalso. apply H2. reflexivity.
    + split; intros [H1 H2]; [discriminate | ].
      destruct H2 as [H2 _]. discriminate.
  - split; [exact Hn | ]. split; [exact Ha | ].
    split; [ | split; assumption].
    rewrite Hn. unfold size. rewrite length_app, length_map. lia.
Qed.

Example getPossibleOutputDeviceNames_example :
  let dm := mkDeviceManager []
              [Some (mkOutputDevice "Out 1 + 2" "Main" true WaveOutput);
               Some (mkOutputDevice "Control Surface" "" true (MidiOutput true));
               None;
               Some (mkOutputDevice "Out 3 + 4" "" false WaveOutput);
               Some (mkOutputDevice "Synth" "" false (MidiOutput false));
               Some (mkOutputDevice "MIDI Out" "Rack" true (MidiOutput false))] in
  getPossibleOutputDeviceNames dm noNames
  = mkDeviceNames ["Out 1 + 2"; "MIDI Out"]%string ["Main"; "Rack"]%string 1 2.
Proof. reflexivity. Qed.

(** ** InsertPlugin: resolving a configured name *)

Lemma indexOfFrom_absent (s : StringArray) (x : string) (k : Z) :
  ~ In x s -> indexOfFrom s x k = -1.
Proof.
  revert k. induction s as [ | y s IH]; intros k H; simpl; [reflexivity | ].
  destruct (String.eqb_spec y x) as [E | N].
  - exfalso. apply H. left. exact E.
  - apply IH. intros Hin. apply H. right. exact Hin.
Qed.

Lemma indexOfFrom_first (s : StringArray) (x : string) (k : Z) (i : nat) :
  nth_error s i = Some x ->
  (forall j, (j < i)%nat -> nth_error s j <> Some x) ->
  indexOfFrom s x k = k + Z.of_nat i.
Proof.
  revert k i. induction s as [ | y s IH]; intros k i Hi Hfirst.
  - destruct i; discriminate.
  - simpl. destruct (String.eqb_spec y x) as [E | N].
    + destruct i as [ | i]; [lia | ].
      exfalso. apply (Hfirst 0%nat); [lia | ]. simpl. congruence.
    + destruct i as [ | i]; [simpl in Hi; congruence | ].
      rewrite (IH (k + 1) i).
      * lia.
      * exact Hi.
      * intros j Hj. apply (Hfirst (S j)). lia.
Qed.

Lemma setDeviceType_classify (audio midi : BigInteger) (i : Z) :
  setDeviceType audio midi i = classify audio midi i.
Proof. reflexivity. Qed.

Lemma setDeviceType_negative (audio midi : BigInteger) (i : Z) :
  i < 0 -> setDeviceType audio midi i = noDevice.
Proof.
  intros H. unfold setDeviceType, getBit.
  rewrite !Z.testbit_neg_r by exact H. reflexivity.
Qed.

Lemma NoDup_nth_error_first (s : StringArray) (x : string) (i j : nat) :
  NoDup s -> nth_error s i = Some x -> (j < i)%nat -> nth_error s j <> Some x.
Proof.
  intros Hnd Hi Hj Hjx.
  assert (Hlen : (i < List.length s)%nat).
  { apply nth_error_Some. rewrite Hi. discriminate. }
  assert (E : i = j).
  { apply (proj1 (NoDup_nth_error s) Hnd i j Hlen). rewrite Hi, Hjx. reflexivity. }
  lia.
Qed.

(** C7 (amended). A configured name absent from the enumerated list (the
    empty string included) has index -1 and resolves to None; the lookup is
    a total function. A name whose first occurrence is at index [i]
    resolves to the capability classified at [i]: Audio if the audio bit is
    set, else Midi if the MIDI bit is set, else None. When no name occurs
    twice, any index holding the name is that first occurrence. *)
Theorem resolve_configured_name (acc : DeviceNames) (configured : string) :
  (~ In configured (names acc) ->
   indexOf (names acc) configured = -1 /\ resolve acc configured = noDevice) /\
  (forall i,
      nth_error (names acc) i = Some configured ->
      (forall j, (j < i)%nat -> nth_error (names acc) j <> Some configured) ->
      resolve acc configured = classify (hasAudio acc) (hasMidi acc) (Z.of_nat i)) /\
  (NoDup (names acc) ->
   forall i, nth_error (names acc) i = Some configured ->
             resolve acc configured = classify (hasAudio acc) (hasMidi acc) (Z.of_nat i)).
Proof.
  assert (Hfirst : forall i,
             nth_error (names acc) i = Some configured ->
             (forall j, (j < i)%nat -> nth_error (names acc) j <> Some configured) ->
             resolve acc configured = classify (hasAudio acc) (hasMidi acc) (Z.of_nat i)).
  { intros i Hi Hj. unfold resolve, indexOf.
    rewrite (indexOfFrom_first _ _ 0 i Hi Hj). reflexivity. }
  split; [ | split].
  - intros Habsent. unfold resolve, indexOf.
    rewrite (indexOfFrom_absent _ _ 0 Habsent).
    split; [reflexivity | ]. apply setDeviceType_negative. lia.
  - exact Hfirst.
  - intros Hnd i Hi. apply Hfirst; [exact Hi | ].
    intros j Hj. exact (NoDup_nth_error_first _ _ i j Hnd Hi Hj).
Qed.

Lemma resolve_configured_name_witness :
  let dm := mkDeviceManager
              [Some (mkInputDevice "Input 1 + 2" "" true false);
               Some (mkInputDevice "Keyboard" "" true true)] [] in
  let acc := getPossibleInputDeviceNames dm noNames in
  (~ In ""%string (names acc) /\ resolve acc "" = noDevice) /\
  (nth_error (names acc) 1 = Some "Keyboard"%string /\ resolve acc "Keyboard" = midiDevice) /\
  (nth_error (names acc) 0 = Some "Input 1 + 2"%string /\
   resolve acc "Input 1 + 2" = audioDevice).
Proof.
  intros dm acc.
  assert (Habsent : ~ In ""%string (names acc)).
  { simpl. intros [H | [H | H]]; [discriminate | discriminate | exact H]. }
  assert (Hnd : NoDup (names acc)).
  { simpl. repeat constructor; simpl; intuition discriminate. }
  split; [ | split].
  - split; [exact Habsent | ].
    exact (proj2 (proj1 (resolve_configured_name acc "") Habsent)).
  - split; [reflexivity | ].
    exact (proj2 (proj2 (resolve_configured_name acc "Keyboard")) Hnd 1%nat eq_refl).
  - split; [reflexivity | ].
    refine (proj1 (proj2 (resolve_configured_name acc "Input 1 + 2")) 0%nat eq_refl _).
    intros j Hj. lia.
Defined.

(** C7 (as stated) fails when a name occurs twice: the name is present at
    index 1, whose capability is Midi, and resolves to index 0's Audio. *)
Lemma resolve_duplicate_name_takes_first_index :
  let dm := mkDeviceManager
              [Some (mkInputDevice "USB Device" "" true false);
               Some (mkInputDevice "USB Device" "" true true)] [] in
  let acc := getPossibleInputDeviceNames dm noNames in
  nth_error (names acc) 1 = Some "USB Device"%string /\
  classify (hasAudio acc) (hasMidi acc) 1 = midiDevice /\
  resolve acc "USB Device" = audioDevice /\
  resolve acc "USB Device" <> classify (hasAudio acc) (hasMidi acc) 1.
Proof.
  simpl. repeat split. discriminate.
Qed.

(** ** InsertPlugin: re-resolving both directions *)

Lemma indexOfFrom_bounds (s : StringArray) (x : string) (k : Z) :
  In x s -> k <= indexOfFrom s x k < k + size s.
Proof.
  unfold size. revert k. induction s as [ | y s IH]; intros k H; [destruct H | ].
  simpl indexOfFrom. destruct (String.eqb_spec y x) as [E | N].
  - simpl List.length. lia.
  - destruct H as [H | H]; [congruence | ].
    specialize (IH (k + 1) H). simpl List.length. lia.
Qed.

Lemma indexOfFrom_app_present (s t : StringArray) (x : string) (k : Z) :
  In x s -> indexOfFrom (s ++ t) x k = indexOfFrom s x k.
Proof.
  revert k. induction s as [ | y s IH]; intros k H; [destruct H | ].
  simpl. destruct (String.eqb_spec y x) as [E | N]; [reflexivity | ].
  destruct H as [H | H]; [congruence | ]. apply IH. exact H.
Qed.

Lemma indexOfFrom_app_absent (s t : StringArray) (x : string) (k : Z) :
  ~ In x s -> indexOfFrom (s ++ t) x k = indexOfFrom t x (k + size s).
Proof.
  unfold size. revert k. induction s as [ | y s IH]; intros k H.
  - simpl. rewrite Z.add_0_r. reflexivity.
  - simpl app. simpl indexOfFrom. destruct (String.eqb_spec y x) as [E | N].
    + exfalso. apply H. left. exact E.
    + rewrite IH by (intros Hin; apply H; right; exact Hin).
      f_equal. simpl List.length. lia.
Qed.

Lemma indexOfFrom_offset (s : StringArray) (x : string) (k : Z) :
  In x s -> indexOfFrom s x k = k + indexOfFrom s x 0.
Proof.
  revert k. induction s as [ | y s IH]; intros k H; [destruct H | ].
  simpl. destruct (String.eqb_spec y x) as [E | N]; [lia | ].
  destruct H as [H | H]; [congruence | ].
  rewrite (IH (k + 1) H), (IH 1 H). lia.
Qed.

Lemma bitAt_below_base {A : Type} (l : list A) (f : A -> bool) (base i : Z) :
  i < base -> bitAt l f base i = false.
Proof.
  intros H. unfold bitAt.
  replace (base <=? i) with false by (symmetry; apply Z.leb_gt; lia).
  reflexivity.
Qed.

Lemma bitAt_past_end {A : Type} (l : list A) (f : A -> bool) (base i : Z) :
  base + Z.of_nat (List.length l) <= i -> bitAt l f base i = false.
Proof.
  intros H. unfold bitAt.
  replace (nth_error l (Z.to_nat (i - base))) with (@None A).
  - apply andb_false_r.
  - symmetry. apply nth_error_None. lia.
Qed.

Lemma bitAt_shift {A : Type} (l : list A) (f : A -> bool) (base j : Z) :
  bitAt l f base (base + j) = bitAt l f 0 j.
Proof.
  unfold bitAt.
  replace (base + j - base) with (j - 0) by lia.
  destruct (Z.leb_spec 0 j).
  - replace (base <=? base + j) with true by (symmetry; apply Z.leb_le; lia).
    reflexivity.
  - replace (base <=? base + j) with false by (symmetry; apply Z.leb_gt; lia).
    reflexivity.
Qed.

Lemma getBit_zero (i : Z) : getBit 0 i = false.
Proof. apply Z.testbit_0_l. Qed.

(** The return direction depends on the input devices alone. *)
Lemma updateDeviceTypes_return (dm : DeviceManager) (p : InsertPlugin) :
  returnDeviceType (updateDeviceTypes dm p)
  = resolve (getPossibleInputDeviceNames dm noNames) (inputDevice p).
Proof. reflexivity. Qed.

Lemma updateDeviceTypes_return_ignores_outputs
    (ins : list (option InputDevice)) (outs outs' : list (option OutputDevice))
    (p : InsertPlugin) :
  returnDeviceType (updateDeviceTypes (mkDeviceManager ins outs) p)
  = returnDeviceType (updateDeviceTypes (mkDeviceManager ins outs') p).
Proof. reflexivity. Qed.

(** The send direction is resolved in the lists the input enumeration has
    already filled: a configured output name that is also the name of an
    enabled input device takes that input device's capability. *)
Lemma updateDeviceTypes_send_matching_input (dm : DeviceManager) (p : InsertPlugin) :
  In (outputDevice p) (names (getPossibleInputDeviceNames dm noNames)) ->
  sendDeviceType (updateDeviceTypes dm p)
  = resolve (getPossibleInputDeviceNames dm noNames) (outputDevice p).
Proof.
  intros Hin. unfold updateDeviceTypes. cbn [sendDeviceType withDeviceTypes].
  set (devs1 := getPossibleInputDeviceNames dm noNames) in *.
  destruct (fold_addOutputDevice (outputDevices dm) devs1) as (Hn & _ & Hau & Hmi).
  fold (getPossibleOutputDeviceNames dm devs1) in Hn, Hau, Hmi.
  fold (listedOutputs dm) in Hn, Hau, Hmi.
  unfold resolve, indexOf. rewrite Hn.
  rewrite (indexOfFrom_app_present _ _ _ 0 Hin).
  pose proof (indexOfFrom_bounds _ _ 0 Hin) as Hb.
  unfold setDeviceType.
  rewrite Hau, Hmi, !bitAt_below_base by lia.
  rewrite !orb_false_r. reflexivity.
Qed.

(** Only for a name that no enabled input device bears is the send
    direction what the output devices alone determine. *)
Lemma updateDeviceTypes_send_no_matching_input (dm : DeviceManager) (p : InsertPlugin) :
  ~ In (outputDevice p) (names (getPossibleInputDeviceNames dm noNames)) ->
  sendDeviceType (updateDeviceTypes dm p)
  = resolve (getPossibleOutputDeviceNames dm noNames) (outputDevice p).
Proof.
  intros Hnin. unfold updateDeviceTypes. cbn [sendDeviceType withDeviceTypes].
  set (devs1 := getPossibleInputDeviceNames dm noNames) in *.
  destruct (fold_addOutputDevice (outputDevices dm) devs1) as (Hn & _ & Hau & Hmi).
  fold (getPossibleOutputDeviceNames dm devs1) in Hn, Hau, Hmi.
  destruct (fold_addOutputDevice (outputDevices dm) noNames) as (Hn0 & _ & Hau0 & Hmi0).
  fold (getPossibleOutputDeviceNames dm noNames) in Hn0, Hau0, Hmi0.
  fold (listedOutputs dm) in Hn, Hau, Hmi, Hn0, Hau0, Hmi0.
  destruct (fold_addInputDevice (inputDevices dm) noNames) as (Hin & _ & Iau & Imi).
  fold (getPossibleInputDeviceNames dm noNames) in Hin, Iau, Imi.
  fold devs1 in Hin, Iau, Imi. cbn [names hasAudio hasMidi noNames] in *.
  set (LI := filter in_isEnabled (presentDevices (inputDevices dm))) in *.
  assert (Hsize : size (names devs1) = Z.of_nat (List.length LI)).
  { rewrite Hin. unfold size. simpl. rewrite length_map. reflexivity. }
  unfold resolve, indexOf. rewrite Hn, Hn0. simpl app.
  rewrite (indexOfFrom_app_absent _ _ _ 0 Hnin). simpl Z.add.
  set (N2 := map out_getName (listedOutputs dm)).
  unfold setDeviceType.
  rewrite Hau, Hmi, Hau0, Hmi0, Iau, Imi, !getBit_zero. simpl orb.
  change (size []) with 0.
  destruct (in_dec string_dec (outputDevice p) N2) as [Hin2 | Hnin2].
  - rewrite (indexOfFrom_offset _ _ (size (names devs1)) Hin2).
    pose proof (indexOfFrom_bounds _ _ 0 Hin2) as Hb.
    rewrite !bitAt_shift.
    rewrite !(bitAt_past_end LI) by lia.
    reflexivity.
  - rewrite !(indexOfFrom_absent _ _ _ Hnin2).
    pose proof (size_nonneg (names devs1)).
    rewrite !bitAt_below_base by lia.
    reflexivity.
Qed.

(** C1 (the code at the failing input). A MIDI input and a MIDI output
    share the name "USB MIDI"; the output is connected to an external
    controller, so it is not enumerated, and resolved against the output
    devices the configured output name gives None. [updateDeviceTypes]
    makes the send capability Midi: the name is found among the input
    names that the shared lists still hold. *)
Theorem updateDeviceTypes_send_matches_input_device :
  let dm := mkDeviceManager
              [Some (mkInputDevice "USB MIDI" "" true true)]
              [Some (mkOutputDevice "Output 1 + 2" "" true WaveOutput);
               Some (mkOutputDevice "USB MIDI" "" true (MidiOutput true))] in
  let p := mkInsertPlugin "" "USB MIDI" (F64.of_Z 0) noDevice noDevice
                          [] [] [] [] (F64.of_Z 0) in
  names (getPossibleOutputDeviceNames dm noNames) = ["Output 1 + 2"%string] /\
  resolve (getPossibleOutputDeviceNames dm noNames) (outputDevice p) = noDevice /\
  names (getPossibleOutputDeviceNames dm (getPossibleInputDeviceNames dm noNames))
  = ["USB MIDI"; "Output 1 + 2"]%string /\
  sendDeviceType (updateDeviceTypes dm p) = midiDevice /\
  returnDeviceType (updateDeviceTypes dm p) = noDevice.
Proof.
  simpl. repeat split.
Qed.

(** The same with an audio output bearing the name of a MIDI input: the
    send capability is the input's Midi, not the output's Audio. *)
Example updateDeviceTypes_send_takes_input_capability :
  let dm := mkDeviceManager
              [Some (mkInputDevice "Interface" "" true true)]
              [Some (mkOutputDevice "Interface" "" true WaveOutput)] in
  let p := mkInsertPlugin "" "Interface" (F64.of_Z 0) noDevice noDevice
                          [] [] [] [] (F64.of_Z 0) in
  resolve (getPossibleOutputDeviceNames dm noNames) (outputDevice p) = audioDevice /\
  sendDeviceType (updateDeviceTypes dm p) = midiDevice.
Proof.
  simpl. repeat split.
Qed.

(* ================================================================== *)
(** * Part III: further properties of the two plugins                  *)
(* ================================================================== *)

(** ** Device enumeration and resolution *)

(** X1. [getPossibleInputDeviceNames] appends exactly the enabled input
    devices, in device-manager order, whatever the out-parameters hold on
    entry: one name, one alias and one capability bit per device, MIDI
    inputs in [hasMidi] and all others in [hasAudio]; disabled devices and
    null entries take no slot. *)
Theorem getPossibleInputDeviceNames_lists_enabled_devices
    (dm : DeviceManager) (acc : DeviceNames) :
  let r := getPossibleInputDeviceNames dm acc in
  (forall d, In d (listedInputs dm) <->
             In (Some d) (inputDevices dm) /\ in_isEnabled d = true) /\
  names r = names acc ++ map in_getName (listedInputs dm) /\
  aliases r = aliases acc ++ map in_getAlias (listedInputs dm) /\
  (forall i, getBit (hasAudio r) i
             = getBit (hasAudio acc) i
               || bitAt (listedInputs dm) inputIsAudio (size (names acc)) i) /\
  (forall i, getBit (hasMidi r) i
             = getBit (hasMidi acc) i
               || bitAt (listedInputs dm) in_isMidiInputDevice (size (names acc)) i).
Proof.
  intros r.
  destruct (fold_addInputDevice (inputDevices dm) acc) as (Hn & Ha & Hau & Hmi).
  fold (getPossibleInputDeviceNames dm acc) in Hn, Ha, Hau, Hmi.
  fold (listedInputs dm) in Hn, Ha, Hau, Hmi. fold r in Hn, Ha, Hau, Hmi.
  split.
  - intros d. unfold listedInputs. rewrite filter_In, In_presentDevices. tauto.
  - split; [exact Hn | ]. split; [exact Ha | ]. split; [exact Hau | ].
    intros i. rewrite Hmi. f_equal. unfold bitAt. f_equal.
    destruct (nth_error (listedInputs dm) (Z.to_nat (i - size (names acc)))) as [d | ];
      [ | reflexivity].
    unfold inputIsAudio. apply negb_involutive.
Qed.

Lemma bitAt_exclusive {A : Type} (l : list A) (f : A -> bool) (base i : Z) :
  bitAt l f base i && bitAt l (fun d => negb (f d)) base i = false.
Proof.
  unfold bitAt. destruct (base <=? i); [ | reflexivity].
  destruct (nth_error l (Z.to_nat (i - base))) as [d | ]; [ | reflexivity].
  simpl. apply andb_negb_r.
Qed.

Lemma bitAt_covering {A : Type} (l : list A) (f : A -> bool) (base i : Z) :
  bitAt l f base i || bitAt l (fun d => negb (f d)) base i
  = (base <=? i) && (i <? base + Z.of_nat (List.length l)).
Proof.
  unfold bitAt. destruct (Z.leb_spec base i) as [Hle | Hgt]; [ | reflexivity].
  simpl. destruct (Z.ltb_spec i (base + Z.of_nat (List.length l))) as [Hlt | Hge].
  - destruct (nth_error l (Z.to_nat (i - base))) as [d | ] eqn:E.
    + apply orb_negb_r.
    + apply nth_error_None in E. lia.
  - replace (nth_error l (Z.to_nat (i - base))) with (@None A); [reflexivity | ].
    symmetry. apply nth_error_None. lia.
Qed.

(** X2. The lists [getPossibleDeviceNames] fills from empty out-parameters, in
    either direction, have one alias per name and exactly one capability
    bit per list position: no position is both Audio and Midi, every
    position of the list has a bit, and no bit is set outside the list. *)
Theorem getPossibleDeviceNames_one_capability_per_slot
    (dm : DeviceManager) (forInput : bool) (i : Z) :
  let r := getPossibleDeviceNames dm noNames forInput in
  List.length (aliases r) = List.length (names r) /\
  getBit (hasAudio r) i && getBit (hasMidi r) i = false /\
  getBit (hasAudio r) i || getBit (hasMidi r) i
  = (0 <=? i) && (i <? size (names r)).
Proof.
  destruct forInput; simpl.
  - destruct (fold_addInputDevice (inputDevices dm) noNames) as (Hn & Ha & Hau & Hmi).
    fold (getPossibleInputDeviceNames dm noNames) in Hn, Ha, Hau, Hmi.
    cbn [names aliases hasAudio hasMidi noNames app] in Hn, Ha, Hau, Hmi.
    rewrite Hn, Ha, Hau, Hmi, !getBit_zero. simpl orb.
    change (size []) with 0.
    split; [rewrite !length_map; reflexivity | ].
    split; [apply bitAt_exclusive | ].
    rewrite bitAt_covering. unfold size. rewrite length_map. reflexivity.
  - destruct (fold_addOutputDevice (outputDevices dm) noNames) as (Hn & Ha & Hau & Hmi).
    fold (getPossibleOutputDeviceNames dm noNames) in Hn, Ha, Hau, Hmi.
    cbn [names aliases hasAudio hasMidi noNames app] in Hn, Ha, Hau, Hmi.
    rewrite Hn, Ha, Hau, Hmi, !getBit_zero. simpl orb.
    change (size []) with 0.
    split; [rewrite !length_map; reflexivity | ].
    split; [apply bitAt_exclusive | ].
    rewrite bitAt_covering. unfold size. rewrite length_map. reflexivity.
Qed.

(** In lists where every position has a capability bit, a name resolves
    to None exactly when it is not in the list. *)
Lemma resolve_None_iff_absent (acc : DeviceNames) (x : string) :
  (forall i, 0 <= i < size (names acc) ->
             getBit (hasAudio acc) i || getBit (hasMidi acc) i = true) ->
  resolve acc x = noDevice <-> ~ In x (names acc).
Proof.
  intros Hbits. unfold resolve, indexOf. split.
  - intros Hnone Hin.
    pose proof (indexOfFrom_bounds _ _ 0 Hin) as Hb.
    specialize (Hbits (indexOfFrom (names acc) x 0) ltac:(lia)).
    unfold setDeviceType in Hnone.
    destruct (getBit (hasAudio acc) _); [discriminate | ].
    destruct (getBit (hasMidi acc) _); discriminate.
  - intros Hnin. rewrite (indexOfFrom_absent _ _ 0 Hnin).
    apply setDeviceType_negative. lia.
Qed.

Lemma input_names_bits (dm : DeviceManager) :
  let devs1 := getPossibleInputDeviceNames dm noNames in
  names devs1 = map in_getName (listedInputs dm) /\
  forall i, 0 <= i < size (names devs1) ->
            getBit (hasAudio devs1) i || getBit (hasMidi devs1) i = true.
Proof.
  intros devs1.
  destruct (fold_addInputDevice (inputDevices dm) noNames) as (Hn & _ & Hau & Hmi).
  fold (getPossibleInputDeviceNames dm noNames) in Hn, Hau, Hmi.
  fold devs1 in Hn, Hau, Hmi. fold (listedInputs dm) in Hn, Hau, Hmi.
  cbn [names hasAudio hasMidi noNames app] in Hn, Hau, Hmi.
  split; [exact Hn | ].
  intros i Hi. rewrite Hau, Hmi, !getBit_zero. simpl orb.
  change (size []) with 0. rewrite bitAt_covering.
  rewrite Hn in Hi. unfold size in Hi. rewrite length_map in Hi.
  apply andb_true_intro. split; [apply Z.leb_le | apply Z.ltb_lt]; lia.
Qed.

Lemma In_input_names (dm : DeviceManager) (x : string) :
  In x (map in_getName (listedInputs dm)) <->
  exists d, In (Some d) (inputDevices dm) /\ in_isEnabled d = true /\ in_getName d = x.
Proof.
  rewrite in_map_iff. unfold listedInputs. split.
  - intros (d & Hx & Hd). apply filter_In in Hd. destruct Hd as [Hd He].
    apply In_presentDevices in Hd. exists d. tauto.
  - intros (d & Hd & He & Hx). exists d. split; [exact Hx | ].
    apply filter_In. split; [apply In_presentDevices; exact Hd | exact He].
Qed.

Lemma In_output_names (dm : DeviceManager) (x : string) :
  In x (map out_getName (listedOutputs dm)) <->
  exists d, In (Some d) (outputDevices dm) /\ out_isEnabled d = true /\
            out_kind d <> MidiOutput true /\ out_getName d = x.
Proof.
  assert (Hl : forall d, listedOutput d = true <->
                         out_isEnabled d = true /\ out_kind d <> MidiOutput true).
  { intros d. unfold listedOutput.
    destruct (out_isEnabled d); simpl.
    - destruct (out_kind d) as [ | [ | ]]; split; try tauto;
        try (intros _; split; [reflexivity | discriminate]).
      discriminate.
    - split; [discriminate | intros [H _]; discriminate]. }
  rewrite in_map_iff. unfold listedOutputs. split.
  - intros (d & Hx & Hd). apply filter_In in Hd. destruct Hd as [Hd He].
    apply In_presentDevices in Hd. apply Hl in He. exists d. tauto.
  - intros (d & Hd & He & Hk & Hx). exists d. split; [exact Hx | ].
    apply filter_In. split; [apply In_presentDevices; exact Hd | ].
    apply Hl. tauto.
Qed.

(** X3. After [updateDeviceTypes] the return capability is None exactly when
    no enabled input device bears the configured input name: a stale name,
    the empty name and the name of a disabled device all switch the return
    path off, and nothing else does. *)
Theorem updateDeviceTypes_return_None_iff (dm : DeviceManager) (p : InsertPlugin) :
  returnDeviceType (updateDeviceTypes dm p) = noDevice <->
  ~ exists d, In (Some d) (inputDevices dm) /\ in_isEnabled d = true /\
              in_getName d = inputDevice p.
Proof.
  destruct (input_names_bits dm) as [Hn Hbits].
  rewrite <- In_input_names, <- Hn.
  apply resolve_None_iff_absent. exact Hbits.
Qed.

Lemma output_names_bits (dm : DeviceManager) :
  let devs2 := getPossibleOutputDeviceNames dm (getPossibleInputDeviceNames dm noNames) in
  names devs2 = map in_getName (listedInputs dm) ++ map out_getName (listedOutputs dm) /\
  forall i, 0 <= i < size (names devs2) ->
            getBit (hasAudio devs2) i || getBit (hasMidi devs2) i = true.
Proof.
  intros devs2.
  destruct (input_names_bits dm) as [Hn1 Hbits1].
  set (devs1 := getPossibleInputDeviceNames dm noNames) in *.
  destruct (fold_addOutputDevice (outputDevices dm) devs1) as (Hn & _ & Hau & Hmi).
  fold (getPossibleOutputDeviceNames dm devs1) in Hn, Hau, Hmi.
  fold devs2 in Hn, Hau, Hmi. fold (listedOutputs dm) in Hn, Hau, Hmi.
  split; [rewrite Hn, Hn1; reflexivity | ].
  intros i Hi. rewrite Hau, Hmi.
  destruct (Z.lt_ge_cases i (size (names devs1))) as [Hlt | Hge].
  - specialize (Hbits1 i ltac:(lia)).
    destruct (getBit (hasAudio devs1) i), (getBit (hasMidi devs1) i);
      try discriminate; simpl; rewrite ?orb_true_r; reflexivity.
  - pose proof (bitAt_covering (listedOutputs dm) outputIsAudio (size (names devs1)) i) as Hc.
    assert (Hin : (size (names devs1) <=? i)
                  && (i <? size (names devs1) + Z.of_nat (List.length (listedOutputs dm)))
                  = true).
    { rewrite Hn in Hi. unfold size in *.
      rewrite length_app, length_map in Hi.
      apply andb_true_intro. split; [apply Z.leb_le | apply Z.ltb_lt]; lia. }
    rewrite Hin in Hc.
    destruct (bitAt (listedOutputs dm) outputIsAudio (size (names devs1)) i),
             (bitAt (listedOutputs dm) (fun d => negb (outputIsAudio d))
                    (size (names devs1)) i);
      try discriminate; rewrite ?orb_true_r; reflexivity.
Qed.

(** X4. After [updateDeviceTypes] the send capability is None exactly when
    the configured output name is borne neither by an enumerated output
    device (enabled, not a MIDI output connected to an external
    controller) nor by an enabled input device. *)
Theorem updateDeviceTypes_send_None_iff (dm : DeviceManager) (p : InsertPlugin) :
  sendDeviceType (updateDeviceTypes dm p) = noDevice <->
  (~ exists d, In (Some d) (outputDevices dm) /\ out_isEnabled d = true /\
               out_kind d <> MidiOutput true /\ out_getName d = outputDevice p) /\
  (~ exists d, In (Some d) (inputDevices dm) /\ in_isEnabled d = true /\
               in_getName d = outputDevice p).
Proof.
  destruct (output_names_bits dm) as [Hn Hbits].
  rewrite <- In_input_names, <- In_output_names.
  change (sendDeviceType (updateDeviceTypes dm p))
    with (resolve (getPossibleOutputDeviceNames dm (getPossibleInputDeviceNames dm noNames))
                  (outputDevice p)).
  rewrite (resolve_None_iff_absent _ _ Hbits), Hn, in_app_iff. tauto.
Qed.

(** X5. The send capability [updateDeviceTypes] computes, in all cases: when
    an enabled input device bears the configured output name it is that
    input device's capability, and otherwise it is the capability the name
    has in the list of output devices alone. *)
Theorem updateDeviceTypes_send_capability (dm : DeviceManager) (p : InsertPlugin) :
  sendDeviceType (updateDeviceTypes dm p)
  = if in_dec string_dec (outputDevice p)
              (names (getPossibleDeviceNames dm noNames true))
    then resolve (getPossibleDeviceNames dm noNames true) (outputDevice p)
    else resolve (getPossibleDeviceNames dm noNames false) (outputDevice p).
Proof.
  unfold getPossibleDeviceNames.
  destruct (in_dec string_dec (outputDevice p)
                   (names (getPossibleInputDeviceNames dm noNames))) as [Hin | Hnin].
  - apply updateDeviceTypes_send_matching_input. exact Hin.
  - apply updateDeviceTypes_send_no_matching_input. exact Hnin.
Qed.

Lemma indexOf_NoDup (s : StringArray) (x : string) (i : nat) :
  NoDup s -> nth_error s i = Some x -> indexOf s x = Z.of_nat i.
Proof.
  intros Hnd Hi. unfold indexOf.
  rewrite (indexOfFrom_first s x 0 i Hi); [reflexivity | ].
  intros j Hj. exact (NoDup_nth_error_first s x i j Hnd Hi Hj).
Qed.

Lemma bitAt_nth {A : Type} (l : list A) (f : A -> bool) (i : nat) (d : A) :
  nth_error l i = Some d -> bitAt l f 0 (Z.of_nat i) = f d.
Proof.
  intros H. unfold bitAt.
  replace (Z.to_nat (Z.of_nat i - 0)) with i by lia.
  rewrite H. replace (0 <=? Z.of_nat i) with true by (symmetry; apply Z.leb_le; lia).
  reflexivity.
Qed.

(** X6. An input device picked from the list [getPossibleDeviceNames] shows
    for inputs, its names being distinct, and configured by name, is
    resolved by [updateDeviceTypes] to its own capability: Midi for a MIDI
    input, Audio for any other, never None. *)
Theorem updateDeviceTypes_return_of_listed_input
    (dm : DeviceManager) (p : InsertPlugin) (i : nat) (d : InputDevice)
    (Hnd : NoDup (names (getPossibleDeviceNames dm noNames true)))
    (Hi : nth_error (listedInputs dm) i = Some d)
    (Hname : inputDevice p = in_getName d) :
  nth_error (names (getPossibleDeviceNames dm noNames true)) i = Some (inputDevice p) /\
  returnDeviceType (updateDeviceTypes dm p)
  = if in_isMidiInputDevice d then midiDevice else audioDevice.
Proof.
  unfold getPossibleDeviceNames in *.
  destruct (fold_addInputDevice (inputDevices dm) noNames) as (Hn & _ & Hau & Hmi).
  fold (getPossibleInputDeviceNames dm noNames) in Hn, Hau, Hmi.
  fold (listedInputs dm) in Hn, Hau, Hmi.
  cbn [names hasAudio hasMidi noNames app] in Hn, Hau, Hmi.
  assert (Hnth : nth_error (names (getPossibleInputDeviceNames dm noNames)) i
                 = Some (inputDevice p)).
  { rewrite Hn, nth_error_map, Hi, Hname. reflexivity. }
  split; [exact Hnth | ].
  rewrite updateDeviceTypes_return. unfold resolve.
  rewrite (indexOf_NoDup _ _ i Hnd Hnth).
  unfold setDeviceType. rewrite Hau, Hmi, !getBit_zero. simpl orb.
  change (size []) with 0.
  rewrite (bitAt_nth _ _ i d Hi), (bitAt_nth _ _ i d Hi).
  unfold inputIsAudio. destruct (in_isMidiInputDevice d); reflexivity.
Qed.

Lemma updateDeviceTypes_return_of_listed_input_witness :
  let dm := mkDeviceManager
              [Some (mkInputDevice "Input 1 + 2" "" true false);
               Some (mkInputDevice "Input 3 + 4" "" false false);
               Some (mkInputDevice "Keyboard" "" true true)] [] in
  let p := mkInsertPlugin "Keyboard" "" (F64.of_Z 0) noDevice noDevice
                          [] [] [] [] (F64.of_Z 0) in
  returnDeviceType (updateDeviceTypes dm p) = midiDevice.
Proof.
  intros dm p.
  assert (Hnd : NoDup (names (getPossibleDeviceNames dm noNames true))).
  { simpl. repeat constructor; simpl; intuition discriminate. }
  exact (proj2 (updateDeviceTypes_return_of_listed_input
                  dm p 1%nat (mkInputDevice "Keyboard" "" true true)
                  Hnd eq_refl eq_refl)).
Defined.

(** X7. An output device picked from the list [getPossibleDeviceNames] shows
    for outputs, its names being distinct, and configured by name, is
    resolved to its own capability provided no enabled input device has
    the same name. *)
Theorem updateDeviceTypes_send_of_listed_output
    (dm : DeviceManager) (p : InsertPlugin) (i : nat) (d : OutputDevice)
    (Hnd : NoDup (names (getPossibleDeviceNames dm noNames false)))
    (Hi : nth_error (listedOutputs dm) i = Some d)
    (Hname : outputDevice p = out_getName d)
    (Hclash : ~ In (outputDevice p) (names (getPossibleDeviceNames dm noNames true))) :
  sendDeviceType (updateDeviceTypes dm p)
  = if outputIsAudio d then audioDevice else midiDevice.
Proof.
  unfold getPossibleDeviceNames in *.
  rewrite (updateDeviceTypes_send_no_matching_input dm p Hclash).
  destruct (fold_addOutputDevice (outputDevices dm) noNames) as (Hn & _ & Hau & Hmi).
  fold (getPossibleOutputDeviceNames dm noNames) in Hn, Hau, Hmi.
  fold (listedOutputs dm) in Hn, Hau, Hmi.
  cbn [names hasAudio hasMidi noNames app] in Hn, Hau, Hmi.
  assert (Hnth : nth_error (names (getPossibleOutputDeviceNames dm noNames)) i
                 = Some (outputDevice p)).
  { rewrite Hn, nth_error_map, Hi, Hname. reflexivity. }
  unfold resolve. rewrite (indexOf_NoDup _ _ i Hnd Hnth).
  unfold setDeviceType. rewrite Hau, Hmi, !getBit_zero. simpl orb.
  change (size []) with 0.
  rewrite (bitAt_nth _ _ i d Hi), (bitAt_nth _ _ i d Hi).
  destruct (outputIsAudio d); reflexivity.
Qed.

Lemma updateDeviceTypes_send_of_listed_output_witness :
  let dm := mkDeviceManager
              [Some (mkInputDevice "Input 1 + 2" "" true false)]
              [Some (mkOutputDevice "Output 1 + 2" "" true WaveOutput);
               Some (mkOutputDevice "Surface" "" true (MidiOutput true));
               Some (mkOutputDevice "Synth" "" true (MidiOutput false))] in
  let p := mkInsertPlugin "" "Synth" (F64.of_Z 0) noDevice noDevice
                          [] [] [] [] (F64.of_Z 0) in
  sendDeviceType (updateDeviceTypes dm p) = midiDevice.
Proof.
  intros dm p.
  assert (Hnd : NoDup (names (getPossibleDeviceNames dm noNames false))).
  { simpl. repeat constructor; simpl; intuition discriminate. }
  assert (Hclash : ~ In (outputDevice p) (names (getPossibleDeviceNames dm noNames true))).
  { simpl. intuition discriminate. }
  exact (updateDeviceTypes_send_of_listed_output
           dm p 1%nat (mkOutputDevice "Synth" "" true (MidiOutput false))
           Hnd eq_refl eq_refl Hclash).
Defined.

(** ** The block algorithm, sample by sample *)

Lemma nth_error_copyChannel (dest src : Channel) (f : nat) :
  nth_error (copyChannel dest src) f
  = match nth_error dest f with
    | Some x => Some (match nth_error src f with Some y => y | None => x end)
    | None => None
    end.
Proof.
  revert src f. induction dest as [ | x dest IH]; intros src f.
  - destruct src, f; reflexivity.
  - destruct src as [ | y src].
    + simpl copyChannel. destruct (nth_error (x :: dest) f); [ | reflexivity].
      destruct f; reflexivity.
    + destruct f as [ | f]; simpl; [reflexivity | apply IH].
Qed.

Lemma getSample_copyIntersection (dest src : Buffer) (c f : nat) :
  getSample (copyIntersection dest src) c f
  = match getSample dest c f with
    | Some x => Some (match getSample src c f with Some y => y | None => x end)
    | None => None
    end.
Proof.
  unfold getSample. revert src c. induction dest as [ | d dest IH]; intros src c.
  - destruct src, c; reflexivity.
  - destruct src as [ | s src].
    + simpl copyIntersection. destruct (nth_error (d :: dest) c) as [ch | ];
        [ | reflexivity].
      destruct (nth_error ch f); [ | reflexivity]. destruct c; reflexivity.
    + destruct c as [ | c]; simpl; [apply nth_error_copyChannel | apply IH].
Qed.

Lemma getSample_fromFrame (start : nat) (b : Buffer) (c f : nat) :
  getSample (fromFrame start b) c f = getSample b c (start + f).
Proof.
  unfold getSample, fromFrame. revert c.
  induction b as [ | ch b IH]; intros [ | c]; simpl; try reflexivity.
  - apply nth_error_skipn.
  - apply IH.
Qed.

Lemma getSample_clearRange (startSample numSamples : Z) (b : Buffer) (c f : nat) :
  getSample (clearRange startSample numSamples b) c f
  = option_map
      (fun x => if (startSample <=? Z.of_nat f) && (Z.of_nat f <? startSample + numSamples)
                then sample_zero else x)
      (getSample b c f).
Proof.
  unfold getSample, clearRange. revert c.
  induction b as [ | ch b IH]; intros [ | c]; simpl; try reflexivity.
  - rewrite nth_error_clearChannelFrom. reflexivity.
  - apply IH.
Qed.

Lemma nth_error_copy_from (start : nat) (dest src : Channel) (f : nat) :
  nth_error (firstn start dest ++ copyChannel (skipn start dest) src) f
  = match nth_error dest f with
    | Some x =>
        Some (if (start <=? f)%nat
              then match nth_error src (f - start) with Some y => y | None => x end
              else x)
    | None => None
    end.
Proof.
  revert dest f. induction start as [ | n IH]; intros dest f.
  - simpl. rewrite nth_error_copyChannel, Nat.sub_0_r. reflexivity.
  - destruct dest as [ | x dest]; [destruct f; reflexivity | ].
    destruct f as [ | f]; [reflexivity | ].
    simpl. apply IH.
Qed.

Lemma getSample_copyIntersectionFromFrame (start : nat) (dest src : Buffer) (c f : nat) :
  getSample (copyIntersectionFromFrame start dest src) c f
  = match getSample dest c f with
    | Some x =>
        Some (if (start <=? f)%nat
              then match getSample src c (f - start) with Some y => y | None => x end
              else x)
    | None => None
    end.
Proof.
  unfold getSample. revert src c. induction dest as [ | d dest IH]; intros src c.
  - destruct src, c; reflexivity.
  - destruct src as [ | s src].
    + simpl copyIntersectionFromFrame.
      destruct (nth_error (d :: dest) c) as [ch | ]; [ | reflexivity].
      destruct (nth_error ch f); [ | reflexivity].
      destruct (start <=? f)%nat; [ | reflexivity]. destruct c; reflexivity.
    + destruct c as [ | c]; simpl; [apply nth_error_copy_from | apply IH].
Qed.

(** X8. With an audio send device and no return device, one block copies the
    live buffer into the send buffer wherever both have a sample, reading
    the live buffer from the block's start sample up to its end and leaving
    the rest of the send buffer as it was; the block's range of the live
    buffer is then cleared and nothing is restored: return buffers and send
    MIDI buffer stay untouched. *)
Theorem applyToBuffer_audio_send_only
    (p : InsertPlugin) (fc : PluginRenderContext) (dest : Buffer)
    (Hsend : sendDeviceType p = audioDevice)
    (Hret : returnDeviceType p = noDevice)
    (Hdest : destBuffer fc = Some dest) :
  let p' := fst (applyToBuffer p fc) in
  let fc' := snd (applyToBuffer p fc) in
  let start := toFrameCount (bufferStartSample fc) in
  (forall c f,
      getSample (sendBuffer p') c f
      = match getSample (sendBuffer p) c f with
        | Some x => Some (match getSample dest c (start + f) with
                          | Some y => y
                          | None => x
                          end)
        | None => None
        end) /\
  destBuffer fc' = Some (clearRange (bufferStartSample fc) (bufferNumSamples fc) dest) /\
  bufferForMidiMessages fc' = option_map (fun _ => []) (bufferForMidiMessages fc) /\
  returnBuffer p' = returnBuffer p /\
  returnMidiBuffer p' = returnMidiBuffer p /\
  sendMidiBuffer p' = sendMidiBuffer p.
Proof.
  intros p' fc' start. subst p' fc'.
  unfold applyToBuffer. rewrite Hsend, Hdest. simpl. rewrite Hsend, Hret. simpl.
  split.
  - intros c f. rewrite getSample_copyIntersection, getSample_fromFrame. reflexivity.
  - repeat split.
Qed.

Lemma applyToBuffer_audio_send_only_witness :
  let z := sample_zero in
  let p := mkInsertPlugin "" "Out" (F64.of_Z 0) audioDevice noDevice
             [[z; z]; [z; z]] [[z; z]; [z; z]] [] [] (F64.of_Z 0) in
  let fc := mkRenderContext
              (Some [map F32.of_Z [1; 2; 3]; map F32.of_Z [4; 5; 6]; map F32.of_Z [7; 8; 9]])
              None 1 2 in
  sendBuffer (fst (applyToBuffer p fc)) = [map F32.of_Z [2; 3]; map F32.of_Z [5; 6]] /\
  destBuffer (snd (applyToBuffer p fc))
  = Some [[F32.of_Z 1; z; z]; [F32.of_Z 4; z; z]; [F32.of_Z 7; z; z]].
Proof.
  intros z p fc.
  destruct (applyToBuffer_audio_send_only
              p fc [map F32.of_Z [1; 2; 3]; map F32.of_Z [4; 5; 6]; map F32.of_Z [7; 8; 9]]
              eq_refl eq_refl eq_refl) as (_ & Hd & _).
  split; [vm_compute; reflexivity | ].
  rewrite Hd. vm_compute. reflexivity.
Defined.

(** X9. With a send device configured and an audio return device, one block
    ends with the live buffer holding, from the block's start sample on,
    the return buffer's samples wherever the return buffer has them, and
    elsewhere its own samples with the block's range cleared. The return
    buffer is read, not consumed: it is the same after the block. *)
Theorem applyToBuffer_audio_return
    (p : InsertPlugin) (fc : PluginRenderContext) (dest : Buffer)
    (Hsend : sendDeviceType p <> noDevice)
    (Hret : returnDeviceType p = audioDevice)
    (Hdest : destBuffer fc = Some dest) :
  let p' := fst (applyToBuffer p fc) in
  let fc' := snd (applyToBuffer p fc) in
  let start := toFrameCount (bufferStartSample fc) in
  let cleared (f : nat) (x : float32) :=
    if (bufferStartSample fc <=? Z.of_nat f)
       && (Z.of_nat f <? bufferStartSample fc + bufferNumSamples fc)
    then sample_zero else x in
  (exists dest',
      destBuffer fc' = Some dest' /\
      frameCounts dest' = frameCounts dest /\
      forall c f,
        getSample dest' c f
        = match getSample dest c f with
          | Some x =>
              Some (if (start <=? f)%nat
                    then match getSample (returnBuffer p) c (f - start) with
                         | Some y => y
                         | None => cleared f x
                         end
                    else cleared f x)
          | None => None
          end) /\
  returnBuffer p' = returnBuffer p /\
  returnMidiBuffer p' = returnMidiBuffer p.
Proof.
  intros p' fc' start cleared. subst p' fc'.
  assert (Hshape : forall s b, frameCounts (copyIntersectionFromFrame s b (returnBuffer p))
                               = frameCounts b).
  { intros s b. generalize (returnBuffer p) as src.
    induction b as [ | d b IH]; intros [ | y src]; simpl; try reflexivity.
    rewrite length_app, length_copyChannel, <- length_app, firstn_skipn.
    unfold frameCounts in IH. rewrite IH. reflexivity. }
  assert (Hclr : forall s n b, frameCounts (clearRange s n b) = frameCounts b).
  { intros s n b. unfold frameCounts, clearRange. rewrite map_map.
    apply map_ext. intros ch. apply length_clearChannelFrom. }
  unfold applyToBuffer. rewrite Hdest.
  destruct (sendDeviceType p) eqn:Es; [congruence | | ].
  - simpl. rewrite Es, Hret. simpl.
    split; [ | split; reflexivity].
    eexists. split; [reflexivity | ]. split; [rewrite Hshape; apply Hclr | ].
    intros c f. rewrite getSample_copyIntersectionFromFrame, getSample_clearRange.
    destruct (getSample dest c f); reflexivity.
  - destruct (bufferForMidiMessages fc); simpl; rewrite Es, Hret; simpl;
      (split; [ | split; reflexivity]);
      (eexists; split; [reflexivity | ]; split; [rewrite Hshape; apply Hclr | ]);
      intros c f; rewrite getSample_copyIntersectionFromFrame, getSample_clearRange;
      destruct (getSample dest c f); reflexivity.
Qed.

Lemma applyToBuffer_audio_return_witness :
  let z := sample_zero in
  let p := mkInsertPlugin "In" "Out" (F64.of_Z 0) midiDevice audioDevice
             [] [map F32.of_Z [10; 20]; map F32.of_Z [30; 40]] [] [] (F64.of_Z 0) in
  let fc := mkRenderContext
              (Some [map F32.of_Z [1; 2; 3; 4]; map F32.of_Z [5; 6; 7; 8]])
              None 1 3 in
  destBuffer (snd (applyToBuffer p fc))
  = Some [[F32.of_Z 1; F32.of_Z 10; F32.of_Z 20; z];
          [F32.of_Z 5; F32.of_Z 30; F32.of_Z 40; z]] /\
  returnBuffer (fst (applyToBuffer p fc)) = returnBuffer p.
Proof.
  intros z p fc.
  assert (Hsend : sendDeviceType p <> noDevice) by discriminate.
  destruct (applyToBuffer_audio_return
              p fc [map F32.of_Z [1; 2; 3; 4]; map F32.of_Z [5; 6; 7; 8]]
              Hsend eq_refl eq_refl) as (_ & Hr & _).
  split; [vm_compute; reflexivity | exact Hr].
Defined.

(** ** The block algorithm: MIDI and the context *)

Lemma applyToBuffer_midi_flow_aux (p : InsertPlugin) (fc : PluginRenderContext) :
  let p' := fst (applyToBuffer p fc) in
  let fc' := snd (applyToBuffer p fc) in
  let restores := negb (DeviceType_eqb (sendDeviceType p) noDevice)
                  && DeviceType_eqb (returnDeviceType p) midiDevice in
  bufferForMidiMessages fc'
  = option_map (fun _ => if restores then returnMidiBuffer p else [])
               (bufferForMidiMessages fc) /\
  sendMidiBuffer p'
  = match sendDeviceType p, bufferForMidiMessages fc with
    | midiDevice, Some live => live
    | _, _ => sendMidiBuffer p
    end /\
  returnMidiBuffer p'
  = match bufferForMidiMessages fc with
    | Some _ => if restores then [] else returnMidiBuffer p
    | None => returnMidiBuffer p
    end.
Proof.
  unfold applyToBuffer.
  destruct (sendDeviceType p) eqn:Es, (returnDeviceType p) eqn:Er,
           (destBuffer fc), (bufferForMidiMessages fc);
    simpl; rewrite ?Es, ?Er; simpl; repeat split.
Qed.

Lemma applyToBuffer_sendDeviceType (p : InsertPlugin) (fc : PluginRenderContext) :
  sendDeviceType (fst (applyToBuffer p fc)) = sendDeviceType p.
Proof.
  unfold applyToBuffer.
  destruct (sendDeviceType p) eqn:Es, (returnDeviceType p) eqn:Er,
           (destBuffer fc), (bufferForMidiMessages fc);
    simpl; rewrite ?Es, ?Er; simpl; assumption.
Qed.

Lemma applyToBuffer_returnDeviceType (p : InsertPlugin) (fc : PluginRenderContext) :
  returnDeviceType (fst (applyToBuffer p fc)) = returnDeviceType p.
Proof.
  unfold applyToBuffer.
  destruct (sendDeviceType p) eqn:Es, (returnDeviceType p) eqn:Er,
           (destBuffer fc), (bufferForMidiMessages fc);
    simpl; rewrite ?Es, ?Er; simpl; assumption.
Qed.

(** X10. The MIDI side of one block, in every configuration. The live list,
    when there is one, ends holding the drained return events if a send
    device is configured and the return device is MIDI, and is empty
    otherwise: the block's own events never stay in it. With a MIDI send
    device the send MIDI buffer is replaced by the block's events,
    whatever was still waiting in it; the return MIDI buffer is emptied
    exactly when it was moved into the live list. *)
Theorem applyToBuffer_midi_flow (p : InsertPlugin) (fc : PluginRenderContext) :
  let p' := fst (applyToBuffer p fc) in
  let fc' := snd (applyToBuffer p fc) in
  let restores := negb (DeviceType_eqb (sendDeviceType p) noDevice)
                  && DeviceType_eqb (returnDeviceType p) midiDevice in
  bufferForMidiMessages fc'
  = option_map (fun _ => if restores then returnMidiBuffer p else [])
               (bufferForMidiMessages fc) /\
  sendMidiBuffer p'
  = match sendDeviceType p, bufferForMidiMessages fc with
    | midiDevice, Some live => live
    | _, _ => sendMidiBuffer p
    end /\
  returnMidiBuffer p'
  = match bufferForMidiMessages fc with
    | Some _ => if restores then [] else returnMidiBuffer p
    | None => returnMidiBuffer p
    end.
Proof.
  unfold applyToBuffer.
  destruct (sendDeviceType p) eqn:Es, (returnDeviceType p) eqn:Er,
           (destBuffer fc), (bufferForMidiMessages fc);
    simpl; rewrite ?Es, ?Er; simpl; repeat split.
Qed.

Lemma frameCounts_clearRange (startSample numSamples : Z) (b : Buffer) :
  frameCounts (clearRange startSample numSamples b) = frameCounts b.
Proof.
  unfold frameCounts, clearRange. rewrite map_map.
  apply map_ext. intros ch. apply length_clearChannelFrom.
Qed.

Lemma frameCounts_copyIntersectionFromFrame (start : nat) (dest src : Buffer) :
  frameCounts (copyIntersectionFromFrame start dest src) = frameCounts dest.
Proof.
  revert src. induction dest as [ | d dest IH]; intros [ | y src]; simpl;
    try reflexivity.
  rewrite length_app, length_copyChannel, <- length_app, firstn_skipn.
  unfold frameCounts in IH. rewrite IH. reflexivity.
Qed.

(** X11. One block never reshapes the live buffer, never turns a present live
    buffer or live MIDI list into an absent one or back, and leaves the
    block's position, the resolved capabilities, the configured names and
    the latency as they were. *)
Theorem applyToBuffer_keeps_context_shape (p : InsertPlugin) (fc : PluginRenderContext) :
  let p' := fst (applyToBuffer p fc) in
  let fc' := snd (applyToBuffer p fc) in
  option_map frameCounts (destBuffer fc') = option_map frameCounts (destBuffer fc) /\
  option_map (fun _ => tt) (bufferForMidiMessages fc')
  = option_map (fun _ => tt) (bufferForMidiMessages fc) /\
  bufferStartSample fc' = bufferStartSample fc /\
  bufferNumSamples fc' = bufferNumSamples fc /\
  sendDeviceType p' = sendDeviceType p /\
  returnDeviceType p' = returnDeviceType p /\
  inputDevice p' = inputDevice p /\
  outputDevice p' = outputDevice p /\
  getLatencySeconds p' = getLatencySeconds p.
Proof.
  unfold applyToBuffer.
  destruct (sendDeviceType p) eqn:Es, (returnDeviceType p) eqn:Er,
           (destBuffer fc), (bufferForMidiMessages fc);
    simpl; rewrite ?Es, ?Er; simpl;
    rewrite ?frameCounts_copyIntersectionFromFrame, ?frameCounts_clearRange;
    repeat split; assumption.
Qed.

(** ** Send and return through the device accessors *)

Lemma copyChannel_same_length (dest src : Channel) :
  List.length dest = List.length src -> copyChannel dest src = src.
Proof.
  revert src. induction dest as [ | x dest IH]; intros [ | y src] H;
    try discriminate; [reflexivity | ].
  simpl. f_equal. apply IH. simpl in H. congruence.
Qed.

Lemma copyIntersection_same_shape (dest src : Buffer) :
  frameCounts dest = frameCounts src -> copyIntersection dest src = src.
Proof.
  revert src. induction dest as [ | d dest IH]; intros [ | s src] H;
    try discriminate; [reflexivity | ].
  simpl in H. injection H as H1 H2.
  simpl. rewrite (copyChannel_same_length d s H1). f_equal. apply IH. exact H2.
Qed.

Lemma copyIntersectionFromFrame_zero (dest src : Buffer) :
  copyIntersectionFromFrame 0 dest src = copyIntersection dest src.
Proof.
  revert src. induction dest as [ | d dest IH]; intros [ | s src]; simpl;
    try reflexivity.
  rewrite IH. reflexivity.
Qed.

Lemma fromFrame_zero (b : Buffer) : fromFrame 0 b = b.
Proof. unfold fromFrame. simpl. apply map_id. Qed.

(** X12. The audio loop through an external device, over two blocks that start
    at sample 0, when the live buffers and the device's buffers have the
    shape of the send and return buffers. What block 1 carried is what the
    device reads from [fillSendBuffer]; what the device hands to
    [fillReturnBuffer] is the whole live signal after block 2, whose own
    content has gone to the send buffer: the return arrives one block
    late, unchanged. *)
Theorem audio_loop_through_device
    (p : InsertPlugin) (live1 live2 deviceOut deviceIn : Buffer)
    (midi1 midi2 : option MidiMessageArray) (n1 n2 : Z)
    (Hsend : sendDeviceType p = audioDevice)
    (Hret : returnDeviceType p = audioDevice)
    (Hshape : frameCounts (returnBuffer p) = frameCounts (sendBuffer p))
    (H1 : frameCounts live1 = frameCounts (sendBuffer p))
    (H2 : frameCounts live2 = frameCounts (sendBuffer p))
    (Hout : frameCounts deviceOut = frameCounts (sendBuffer p))
    (Hin : frameCounts deviceIn = frameCounts (sendBuffer p)) :
  let block1 := applyToBuffer p (mkRenderContext (Some live1) midi1 0 n1) in
  let pulled := fillSendBuffer (fst block1) (Some deviceOut) None in
  let pushed := fillReturnBuffer (fst (fst pulled)) (Some deviceIn) None in
  let block2 := applyToBuffer pushed (mkRenderContext (Some live2) midi2 0 n2) in
  destBuffer (snd block1) = Some (returnBuffer p) /\
  snd (fst pulled) = Some live1 /\
  destBuffer (snd block2) = Some deviceIn /\
  sendBuffer (fst block2) = live2 /\
  returnBuffer (fst block2) = deviceIn.
Proof.
  intros block1 pulled pushed block2.
  assert (E1 : block1
               = (withBuffers live1 (returnBuffer p) (sendMidiBuffer p) (returnMidiBuffer p) p,
                  mkRenderContext (Some (returnBuffer p))
                                  (option_map (fun _ => []) midi1) 0 n1)).
  { subst block1. unfold applyToBuffer. cbn [destBuffer bufferForMidiMessages
      bufferStartSample bufferNumSamples]. rewrite Hsend.
    change (toFrameCount 0) with 0%nat. rewrite fromFrame_zero.
    rewrite (copyIntersection_same_shape _ _ (eq_sym H1)).
    cbn [sendDeviceType returnDeviceType withBuffers returnBuffer option_map
         DeviceType_eqb]. rewrite Hsend, Hret.
    cbn [DeviceType_eqb]. rewrite copyIntersectionFromFrame_zero.
    rewrite copyIntersection_same_shape
      by (rewrite frameCounts_clearRange, H1, Hshape; reflexivity).
    reflexivity. }
  assert (E2 : pulled
               = (withBuffers live1 (returnBuffer p) (sendMidiBuffer p)
                              (returnMidiBuffer p) p,
                  Some live1, None)).
  { subst pulled. rewrite E1. unfold fillSendBuffer.
    cbn [fst sendDeviceType withBuffers sendBuffer option_map]. rewrite Hsend.
    rewrite (copyIntersection_same_shape _ _ (eq_trans Hout (eq_sym H1))).
    reflexivity. }
  assert (E3 : pushed
               = withBuffers live1 deviceIn (sendMidiBuffer p) (returnMidiBuffer p) p).
  { subst pushed. rewrite E2. unfold fillReturnBuffer.
    cbn [fst returnDeviceType withBuffers sendBuffer returnBuffer sendMidiBuffer
         returnMidiBuffer]. rewrite Hret.
    rewrite (copyIntersection_same_shape _ _ (eq_trans Hshape (eq_sym Hin))).
    reflexivity. }
  assert (E4 : block2
               = (withBuffers live2 deviceIn (sendMidiBuffer p) (returnMidiBuffer p) p,
                  mkRenderContext (Some deviceIn)
                                  (option_map (fun _ => []) midi2) 0 n2)).
  { subst block2. rewrite E3. unfold applyToBuffer. cbn [destBuffer bufferForMidiMessages
      bufferStartSample bufferNumSamples sendDeviceType withBuffers sendBuffer].
    rewrite Hsend.
    change (toFrameCount 0) with 0%nat. rewrite fromFrame_zero.
    rewrite (copyIntersection_same_shape _ _ (eq_trans H1 (eq_sym H2))).
    cbn [sendDeviceType returnDeviceType withBuffers returnBuffer option_map
         DeviceType_eqb]. rewrite Hsend, Hret.
    cbn [DeviceType_eqb]. rewrite copyIntersectionFromFrame_zero.
    rewrite copyIntersection_same_shape
      by (rewrite frameCounts_clearRange, H2, Hin; reflexivity).
    reflexivity. }
  rewrite E1, E2, E4. repeat split.
Qed.

Lemma audio_loop_through_device_witness :
  let z := sample_zero in
  let p := initialise (mkInitInfo (F64.of_Z 48000) 3)
             (mkInsertPlugin "In" "Out" (F64.of_Z 0) audioDevice audioDevice
                             [] [] [] [] (F64.of_Z 0)) in
  let live1 := [map F32.of_Z [1; 2; 3]; map F32.of_Z [4; 5; 6]] in
  let live2 := [map F32.of_Z [7; 8; 9]; map F32.of_Z [10; 11; 12]] in
  let deviceIn := [map F32.of_Z [-1; -2; -3]; map F32.of_Z [-4; -5; -6]] in
  let deviceOut := [[z; z; z]; [z; z; z]] in
  let block1 := applyToBuffer p (mkRenderContext (Some live1) None 0 3) in
  let pulled := fillSendBuffer (fst block1) (Some deviceOut) None in
  let pushed := fillReturnBuffer (fst (fst pulled)) (Some deviceIn) None in
  let block2 := applyToBuffer pushed (mkRenderContext (Some live2) None 0 3) in
  destBuffer (snd block1) = Some deviceOut /\
  snd (fst pulled) = Some live1 /\
  destBuffer (snd block2) = Some deviceIn.
Proof.
  intros z p live1 live2 deviceIn deviceOut.
  destruct (audio_loop_through_device p live1 live2 deviceOut deviceIn None None 3 3
              eq_refl eq_refl eq_refl eq_refl eq_refl eq_refl eq_refl)
    as (Hb1 & Hpull & Hb2 & _).
  split; [exact Hb1 | split; [exact Hpull | exact Hb2]].
Defined.

(** X13. MIDI from the device to the graph. With a send device configured and
    a MIDI return device, everything the device pushes through
    [fillReturnBuffer] between two blocks is added behind what was still
    waiting, the audio argument being ignored; the next block delivers it
    all, in order, as the live list and empties the return buffer, so the
    block after that delivers nothing: no event arrives twice. *)
Theorem midi_return_delivered_once
    (p : InsertPlugin) (a1 a2 : option Buffer) (m1 m2 : MidiMessageArray)
    (fc fc2 : PluginRenderContext) (live live2 : MidiMessageArray)
    (Hsend : sendDeviceType p <> noDevice)
    (Hret : returnDeviceType p = midiDevice)
    (Hlive : bufferForMidiMessages fc = Some live)
    (Hlive2 : bufferForMidiMessages fc2 = Some live2) :
  let pushed := fillReturnBuffer (fillReturnBuffer p a1 (Some m1)) a2 (Some m2) in
  let block1 := applyToBuffer pushed fc in
  let block2 := applyToBuffer (fst block1) fc2 in
  returnMidiBuffer pushed = returnMidiBuffer p ++ m1 ++ m2 /\
  returnBuffer pushed = returnBuffer p /\
  bufferForMidiMessages (snd block1) = Some (returnMidiBuffer p ++ m1 ++ m2) /\
  returnMidiBuffer (fst block1) = [] /\
  bufferForMidiMessages (snd block2) = Some [].
Proof.
  intros pushed block1 block2.
  assert (Ep : pushed
               = withBuffers (sendBuffer p) (returnBuffer p) (sendMidiBuffer p)
                             (returnMidiBuffer p ++ m1 ++ m2) p).
  { subst pushed. unfold fillReturnBuffer. rewrite Hret.
    cbn [returnDeviceType withBuffers]. rewrite Hret.
    cbn [sendBuffer returnBuffer sendMidiBuffer returnMidiBuffer withBuffers].
    unfold mergeFrom. rewrite <- app_assoc. reflexivity. }
  assert (Hs : sendDeviceType pushed = sendDeviceType p) by (rewrite Ep; reflexivity).
  assert (Hr : returnDeviceType pushed = midiDevice) by (rewrite Ep; exact Hret).
  assert (Hrestores : forall q,
             sendDeviceType q = sendDeviceType p -> returnDeviceType q = midiDevice ->
             negb (DeviceType_eqb (sendDeviceType q) noDevice)
             && DeviceType_eqb (returnDeviceType q) midiDevice = true).
  { intros q Hq1 Hq2. rewrite Hq1, Hq2.
    destruct (sendDeviceType p); [congruence | reflexivity | reflexivity]. }
  destruct (applyToBuffer_midi_flow_aux pushed fc) as (Hl1 & _ & Hrm1).
  fold block1 in Hl1, Hrm1.
  rewrite Hlive, (Hrestores pushed Hs Hr) in Hl1, Hrm1. simpl in Hl1.
  assert (Hs1 : sendDeviceType (fst block1) = sendDeviceType p).
  { subst block1. rewrite applyToBuffer_sendDeviceType. exact Hs. }
  assert (Hr1 : returnDeviceType (fst block1) = midiDevice).
  { subst block1. rewrite applyToBuffer_returnDeviceType. exact Hr. }
  destruct (applyToBuffer_midi_flow_aux (fst block1) fc2) as (Hl2 & _ & _).
  fold block2 in Hl2.
  rewrite Hlive2, (Hrestores _ Hs1 Hr1), Hrm1 in Hl2. simpl in Hl2.
  split; [rewrite Ep; reflexivity | ].
  split; [rewrite Ep; reflexivity | ].
  split; [rewrite Hl1, Ep; reflexivity | ].
  split; [exact Hrm1 | exact Hl2].
Qed.

Lemma midi_return_delivered_once_witness :
  let on := mkMidiMessage [144; 60; 100] (F64.of_Z 0) in
  let off := mkMidiMessage [128; 60; 0] (F64.of_Z 1) in
  let cc := mkMidiMessage [176; 7; 127] (F64.of_Z 2) in
  let p := mkInsertPlugin "Keys" "Out" (F64.of_Z 0) audioDevice midiDevice
                          [] [] [] [] (F64.of_Z 0) in
  let fc := mkRenderContext None (Some [cc]) 0 64 in
  let pushed := fillReturnBuffer (fillReturnBuffer p None (Some [on])) None (Some [off]) in
  bufferForMidiMessages (snd (applyToBuffer pushed fc)) = Some [on; off] /\
  bufferForMidiMessages (snd (applyToBuffer (fst (applyToBuffer pushed fc)) fc)) = Some [].
Proof.
  intros on off cc p fc pushed.
  assert (Hsend : sendDeviceType p <> noDevice) by discriminate.
  destruct (midi_return_delivered_once p None None [on] [off] fc fc [cc] [cc]
              Hsend eq_refl eq_refl eq_refl) as (_ & _ & H1 & _ & H2).
  split; [exact H1 | exact H2].
Defined.

Lemma fillSendBuffer_midi (p : InsertPlugin) (a : option Buffer) (dm : MidiMessageArray) :
  sendDeviceType p = midiDevice ->
  fillSendBuffer p a (Some dm)
  = (withBuffers (sendBuffer p) (returnBuffer p) [] (returnMidiBuffer p) p,
     a, Some (dm ++ sendMidiBuffer p)).
Proof.
  intros H. unfold fillSendBuffer. rewrite H. reflexivity.
Qed.

(** X14. MIDI from the graph to the device. With a MIDI send device, a block
    puts its events in the send MIDI buffer; [fillSendBuffer] appends them
    to the device's list and empties the buffer, so a second pull adds
    nothing. The buffer holds one block only: when two blocks run before
    the device pulls, the events of the first are gone. *)
Theorem midi_send_delivered_once
    (p : InsertPlugin) (fc fc2 : PluginRenderContext) (live live2 : MidiMessageArray)
    (a1 a2 : option Buffer) (deviceMidi : MidiMessageArray)
    (Hsend : sendDeviceType p = midiDevice)
    (Hlive : bufferForMidiMessages fc = Some live)
    (Hlive2 : bufferForMidiMessages fc2 = Some live2) :
  let block1 := applyToBuffer p fc in
  let pulled := fillSendBuffer (fst block1) a1 (Some deviceMidi) in
  let pulledAgain := fillSendBuffer (fst (fst pulled)) a2 (snd pulled) in
  let block2 := applyToBuffer (fst block1) fc2 in
  sendMidiBuffer (fst block1) = live /\
  snd pulled = Some (deviceMidi ++ live) /\
  sendMidiBuffer (fst (fst pulled)) = [] /\
  snd pulledAgain = Some (deviceMidi ++ live) /\
  sendMidiBuffer (fst block2) = live2.
Proof.
  intros block1 pulled pulledAgain block2.
  destruct (applyToBuffer_midi_flow_aux p fc) as (_ & Hs1 & _).
  fold block1 in Hs1. rewrite Hsend, Hlive in Hs1.
  assert (Hd1 : sendDeviceType (fst block1) = midiDevice).
  { subst block1. rewrite applyToBuffer_sendDeviceType. exact Hsend. }
  assert (Ep : pulled
               = (withBuffers (sendBuffer (fst block1)) (returnBuffer (fst block1)) []
                              (returnMidiBuffer (fst block1)) (fst block1),
                  a1, Some (deviceMidi ++ live))).
  { subst pulled. rewrite (fillSendBuffer_midi _ _ _ Hd1), Hs1. reflexivity. }
  assert (Ea : snd pulledAgain = Some (deviceMidi ++ live)).
  { subst pulledAgain. rewrite Ep. cbn [fst snd].
    rewrite fillSendBuffer_midi by exact Hd1.
    cbn [snd sendMidiBuffer withBuffers]. rewrite app_nil_r. reflexivity. }
  destruct (applyToBuffer_midi_flow_aux (fst block1) fc2) as (_ & Hs2 & _).
  fold block2 in Hs2. rewrite Hd1, Hlive2 in Hs2.
  split; [exact Hs1 | ].
  split; [rewrite Ep; reflexivity | ].
  split; [rewrite Ep; reflexivity | ].
  split; [exact Ea | exact Hs2].
Qed.

Lemma midi_send_delivered_once_witness :
  let on := mkMidiMessage [144; 60; 100] (F64.of_Z 0) in
  let off := mkMidiMessage [128; 60; 0] (F64.of_Z 1) in
  let p := mkInsertPlugin "" "Synth" (F64.of_Z 0) midiDevice noDevice
                          [] [] [] [] (F64.of_Z 0) in
  let fc := mkRenderContext None (Some [on]) 0 64 in
  let fc2 := mkRenderContext None (Some [off]) 64 64 in
  snd (fillSendBuffer (fst (applyToBuffer p fc)) None (Some [])) = Some [on] /\
  sendMidiBuffer (fst (applyToBuffer (fst (applyToBuffer p fc)) fc2)) = [off].
Proof.
  intros on off p fc fc2.
  destruct (midi_send_delivered_once p fc fc2 [on] [off] None None []
              eq_refl eq_refl eq_refl) as (_ & H1 & _ & _ & H2).
  split; [exact H1 | exact H2].
Defined.

(** ** Initialisation and teardown *)

Lemma clear_resize (numChannels numFrames : nat) (b : Buffer) :
  clear (resize numChannels numFrames b)
  = repeat (repeat sample_zero numFrames) numChannels.
Proof.
  assert (Hc : forall c : Channel,
             map (fun _ => sample_zero) c = repeat sample_zero (List.length c)).
  { induction c as [ | x c IH]; simpl; [reflexivity | rewrite IH; reflexivity]. }
  assert (Hb : forall b' : Buffer,
             clear b' = map (repeat sample_zero) (frameCounts b')).
  { intros b'. unfold clear, frameCounts. rewrite map_map.
    apply map_ext. exact Hc. }
  rewrite Hb, frameCounts_resize. apply map_repeat.
Qed.

(** X15. [initialise] leaves both audio buffers as two channels of silence of
    the block size, whatever they held and whatever their size was; it
    does not touch the MIDI buffers, so events waiting there survive a
    re-initialisation; and running it again with the same information
    changes nothing. *)
Theorem initialise_silent_buffers (info : PluginInitialisationInfo) (p : InsertPlugin) :
  let silence := repeat (repeat sample_zero (toFrameCount (blockSizeSamples info))) 2 in
  sendBuffer (initialise info p) = silence /\
  returnBuffer (initialise info p) = silence /\
  sendMidiBuffer (initialise info p) = sendMidiBuffer p /\
  returnMidiBuffer (initialise info p) = returnMidiBuffer p /\
  initialise info (initialise info p) = initialise info p.
Proof.
  intros silence.
  assert (E : initialise info p
              = initialiseWithoutStopping info
                  (withBuffers silence silence (sendMidiBuffer p) (returnMidiBuffer p) p)).
  { unfold initialise. rewrite !clear_resize. reflexivity. }
  split; [rewrite E; reflexivity | ].
  split; [rewrite E; reflexivity | ].
  split; [reflexivity | ].
  split; [reflexivity | ].
  unfold initialise at 1. rewrite !clear_resize.
  fold silence. rewrite E. reflexivity.
Qed.


(** X17. [initialiseWithoutStopping] recomputes the latency and nothing else:
    called with a new block size after [initialise], it leaves the send
    and return buffers at the frame count of the earlier [initialise],
    while the reported latency is that of the new block size. *)
Theorem initialiseWithoutStopping_keeps_buffers
    (info info' : PluginInitialisationInfo) (p : InsertPlugin)
    (Hb : 0 <= blockSizeSamples info < 2 ^ 31) :
  let q := initialiseWithoutStopping info' (initialise info p) in
  Z.of_nat (getNumFrames (sendBuffer q)) = blockSizeSamples info /\
  Z.of_nat (getNumFrames (returnBuffer q)) = blockSizeSamples info /\
  sendBuffer q = sendBuffer (initialise info p) /\
  returnBuffer q = returnBuffer (initialise info p) /\
  getLatencySeconds q
  = F64.add (F64.div (manualAdjustMs p) (F64.of_Z 1000))
            (F64.div (F64.of_Z (blockSizeSamples info')) (sampleRate info')).
Proof.
  intros q.
  destruct (initialise_frameCounts info p) as [Is Ir].
  pose proof (toFrameCount_in_range _ Hb) as Hn.
  assert (Es : sendBuffer q = sendBuffer (initialise info p)) by reflexivity.
  assert (Er : returnBuffer q = returnBuffer (initialise info p)) by reflexivity.
  split; [rewrite Es, getNumFrames_frameCounts, Is; exact Hn | ].
  split; [rewrite Er, getNumFrames_frameCounts, Ir; exact Hn | ].
  split; [exact Es | split; [exact Er | reflexivity]].
Qed.

Lemma initialiseWithoutStopping_keeps_buffers_witness :
  let p := mkInsertPlugin "" "" (F64.of_Z 10) noDevice noDevice [] [] [] [] (F64.of_Z 0) in
  let q := initialiseWithoutStopping (mkInitInfo (F64.of_Z 48000) 1024)
             (initialise (mkInitInfo (F64.of_Z 48000) 512) p) in
  Z.of_nat (getNumFrames (sendBuffer q)) = 512 /\
  getLatencySeconds q
  = F64.add (F64.lit 1 100) (F64.div (F64.of_Z 1024) (F64.of_Z 48000)).
Proof.
  intros p q.
  assert (Hb : 0 <= blockSizeSamples (mkInitInfo (F64.of_Z 48000) 512) < 2 ^ 31)
    by (simpl; lia).
  destruct (initialiseWithoutStopping_keeps_buffers
              (mkInitInfo (F64.of_Z 48000) 512) (mkInitInfo (F64.of_Z 48000) 1024) p Hb)
    as (Hf & _ & _ & _ & Hl).
  split; [exact Hf | ].
  etransitivity; [exact Hl | vm_compute; reflexivity].
Defined.

(** X18. A plugin for which [hasAudio ()] and [hasMidi ()] are both false has no
    device in either direction and carries nothing: a block is only
    cleared, and the two device accessors neither read nor write. *)
Theorem plugin_without_devices_is_inert
    (p : InsertPlugin) (fc : PluginRenderContext)
    (a : option Buffer) (m : option MidiMessageArray)
    (Haudio : InsertPlugin_hasAudio p = false)
    (Hmidi : InsertPlugin_hasMidi p = false) :
  (sendDeviceType p = noDevice /\ returnDeviceType p = noDevice) /\
  applyToBuffer p fc
  = (p, mkRenderContext
          (option_map (clearRange (bufferStartSample fc) (bufferNumSamples fc))
                      (destBuffer fc))
          (option_map (fun _ => []) (bufferForMidiMessages fc))
          (bufferStartSample fc) (bufferNumSamples fc)) /\
  fillSendBuffer p a m = (p, a, m) /\
  fillReturnBuffer p a m = p.
Proof.
  unfold InsertPlugin_hasAudio, InsertPlugin_hasMidi in *.
  unfold applyToBuffer, fillSendBuffer, fillReturnBuffer.
  destruct (sendDeviceType p) eqn:Es, (returnDeviceType p) eqn:Er;
    try discriminate.
  simpl. rewrite Es. repeat split.
Qed.

Lemma plugin_without_devices_is_inert_witness :
  let p := updateDeviceTypes (mkDeviceManager [] [])
             (mkInsertPlugin "Input 1 + 2" "Output 1 + 2" (F64.of_Z 0)
                             audioDevice audioDevice
                             [[F32.of_Z 1]] [[F32.of_Z 2]] [] [] (F64.of_Z 0)) in
  InsertPlugin_hasAudio p = false /\ InsertPlugin_hasMidi p = false /\
  fillReturnBuffer p (Some [[F32.of_Z 3]]) None = p.
Proof.
  intros p.
  destruct (plugin_without_devices_is_inert
              p (mkRenderContext None None 0 0) (Some [[F32.of_Z 3]]) None
              eq_refl eq_refl) as (_ & _ & _ & H).
  split; [reflexivity | split; [reflexivity | exact H]].
Defined.

(** X19. A configured output name that no enumerated device of either
    direction bears drops the signal: after [updateDeviceTypes] every
    block comes out cleared and the plugin's buffers are not written. *)
Theorem unknown_output_name_drops_signal
    (dm : DeviceManager) (p : InsertPlugin) (fc : PluginRenderContext)
    (Hin : ~ In (outputDevice p) (names (getPossibleDeviceNames dm noNames true)))
    (Hout : ~ In (outputDevice p) (names (getPossibleDeviceNames dm noNames false))) :
  let q := updateDeviceTypes dm p in
  sendDeviceType q = noDevice /\
  fst (applyToBuffer q fc) = q /\
  destBuffer (snd (applyToBuffer q fc))
  = option_map (clearRange (bufferStartSample fc) (bufferNumSamples fc)) (destBuffer fc) /\
  bufferForMidiMessages (snd (applyToBuffer q fc))
  = option_map (fun _ => []) (bufferForMidiMessages fc).
Proof.
  intros q. unfold getPossibleDeviceNames in *.
  assert (Hs : sendDeviceType q = noDevice).
  { subst q. rewrite (updateDeviceTypes_send_no_matching_input dm p Hin).
    unfold resolve, indexOf. rewrite (indexOfFrom_absent _ _ 0 Hout).
    apply setDeviceType_negative. lia. }
  split; [exact Hs | ]. clearbody q.
  unfold applyToBuffer. rewrite Hs. simpl. rewrite Hs. repeat split.
Qed.

Lemma unknown_output_name_drops_signal_witness :
  let dm := mkDeviceManager
              [Some (mkInputDevice "Input 1 + 2" "" true false)]
              [Some (mkOutputDevice "Output 1 + 2" "" true WaveOutput);
               Some (mkOutputDevice "Output 3 + 4" "" false WaveOutput)] in
  let p := mkInsertPlugin "Input 1 + 2" "Output 3 + 4" (F64.of_Z 0) noDevice noDevice
                          [] [] [] [] (F64.of_Z 0) in
  let fc := mkRenderContext (Some [[F32.of_Z 1; F32.of_Z 2]]) None 0 2 in
  returnDeviceType (updateDeviceTypes dm p) = audioDevice /\
  sendDeviceType (updateDeviceTypes dm p) = noDevice /\
  destBuffer (snd (applyToBuffer (updateDeviceTypes dm p) fc))
  = Some [[sample_zero; sample_zero]].
Proof.
  intros dm p fc.
  assert (Hin : ~ In (outputDevice p) (names (getPossibleDeviceNames dm noNames true)))
    by (simpl; intuition discriminate).
  assert (Hout : ~ In (outputDevice p) (names (getPossibleDeviceNames dm noNames false)))
    by (simpl; intuition discriminate).
  destruct (unknown_output_name_drops_signal dm p fc Hin Hout) as (Hs & _ & Hd & _).
  split; [reflexivity | split; [exact Hs | ]].
  rewrite Hd. reflexivity.
Defined.

(** ** AuxSendPlugin: further properties of gain and mute *)

Section AuxSendFurther.
Variable decibelsToVolumeFaderPosition : float32 -> float32.
Variable volumeFaderPositionToDB : float32 -> float32.
Variable valueAfterSet : float32 -> float32.

Local Abbreviation d2p := decibelsToVolumeFaderPosition.
Local Abbreviation p2d := volumeFaderPositionToDB.
Local Abbreviation getGainDb' := (getGainDb p2d).
Local Abbreviation setGainDb' := (setGainDb d2p valueAfterSet).
Local Abbreviation setMute' := (setMute d2p p2d valueAfterSet).
Local Abbreviation isMute' := (isMute p2d).
Local Abbreviation holds := (holdsPosition valueAfterSet).


(** X23. [setMute (true)] mutes: it saves the gain the send had, leaves the
    parameter holding the -100 dB position, and, read back through
    conversions that take that position to -90 dB or below, [isMute ()]
    is then true. *)
Theorem setMute_true_mutes (p : AuxSendPlugin)
    (Hfloor : forall pos, holds pos (d2p db_floor) ->
                          fle (p2d pos) db_mute_threshold = true) :
  lastVolumeBeforeMute (setMute' true p) = getGainDb' p /\
  holds (gain_currentValue (setMute' true p)) (d2p db_floor) /\
  isMute' (setMute' true p) = true.
Proof.
  split; [apply setMute_true_lastVolume | ].
  pose proof (setMute_true_position d2p p2d valueAfterSet p) as Hp.
  split; [exact Hp | ].
  unfold isMute, getGainDb. apply Hfloor. exact Hp.
Qed.

(** X24. [setMute (false)] does not look at the current gain: it writes the
    saved level, or 0 dB when the saved level is below -100 dB, over
    whatever gain the send has, muted or not. Afterwards the saved level
    is never below -100 dB, so a further [setMute (false)] keeps it. *)
Theorem setMute_false_writes_saved_level (p : AuxSendPlugin) :
  let target := if flt (lastVolumeBeforeMute p) db_floor
                then db_zero else lastVolumeBeforeMute p in
  lastVolumeBeforeMute (setMute' false p) = target /\
  holds (gain_currentValue (setMute' false p)) (d2p target) /\
  flt (lastVolumeBeforeMute (setMute' false p)) db_floor = false /\
  lastVolumeBeforeMute (setMute' false (setMute' false p)) = target.
Proof.
  intros target. subst target.
  destruct (flt (lastVolumeBeforeMute p) db_floor) eqn:E.
  - destruct (setMute_false_resets d2p p2d valueAfterSet p E) as [Hl Hp].
    assert (Hg : flt (lastVolumeBeforeMute (setMute' false p)) db_floor = false)
      by (rewrite Hl; reflexivity).
    destruct (setMute_false_restores d2p p2d valueAfterSet _ Hg) as [Hl2 _].
    repeat split; try assumption. rewrite Hl2. exact Hl.
  - destruct (setMute_false_restores d2p p2d valueAfterSet p E) as [Hl Hp].
    assert (Hg : flt (lastVolumeBeforeMute (setMute' false p)) db_floor = false)
      by (rewrite Hl; exact E).
    destruct (setMute_false_restores d2p p2d valueAfterSet _ Hg) as [Hl2 _].
    repeat split; try assumption. rewrite Hl2. exact Hl.
Qed.
End AuxSendFurther.

Lemma setMute_true_mutes_witness :
  let p := mkAuxSend (linearDbToPos (F32.of_Z (-6))) db_zero in
  lastVolumeBeforeMute (setMute linearDbToPos linearPosToDb clampToRange true p)
  = F32.of_Z (-6) /\
  isMute linearPosToDb (setMute linearDbToPos linearPosToDb clampToRange true p) = true.
Proof.
  intros p.
  assert (Hfloor : forall pos,
             holdsPosition clampToRange pos (linearDbToPos db_floor) ->
             fle (linearPosToDb pos) db_mute_threshold = true).
  { intros pos H. by_positions H. }
  destruct (setMute_true_mutes linearDbToPos linearPosToDb clampToRange p Hfloor)
    as (Hl & _ & Hm).
  split; [ | exact Hm].
  etransitivity; [exact Hl | vm_compute; reflexivity].
Defined.

(** ** AuxSendPlugin: bus names *)

Lemma to_int_canonical (n : Z) :
  Z.to_int n <> Decimal.Pos Decimal.Nil /\ Z.to_int n <> Decimal.Neg Decimal.Nil.
Proof.
  destruct n as [ | q | q]; simpl; split; try discriminate;
    intros H; injection H as H; exact (DecimalPos.Unsigned.to_uint_nonnil q H).
Qed.

Lemma String_of_int_inj (n m : Z) : String_of_int n = String_of_int m -> n = m.
Proof.
  unfold String_of_int. intros H.
  apply DecimalZ.to_int_inj.
  destruct (to_int_canonical n) as [Hn1 Hn2], (to_int_canonical m) as [Hm1 Hm2].
  pose proof (DecimalString.NilZero.isi _ Hn1 Hn2) as En.
  pose proof (DecimalString.NilZero.isi _ Hm1 Hm2) as Em.
  rewrite H, Em in En. injection En as En. symmetry. exact En.
Qed.

Lemma wrap_int_succ_inj (i j : Z) :
  - 2 ^ 31 <= i < 2 ^ 31 -> - 2 ^ 31 <= j < 2 ^ 31 ->
  wrap_int (i + 1) = wrap_int (j + 1) -> i = j.
Proof.
  unfold wrap_int. change (2 ^ 31) with 2147483648. change (2 ^ 32) with 4294967296.
  intros Hi Hj H. Z.div_mod_to_equations. lia.
Qed.

Lemma wrap_int_small (z : Z) : - 2 ^ 31 <= z < 2 ^ 31 -> wrap_int z = z.
Proof.
  unfold wrap_int. change (2 ^ 31) with 2147483648. change (2 ^ 32) with 4294967296.
  intros H. rewrite Z.mod_small by lia. lia.
Qed.

Lemma allDigits_string_of_uint (d : Decimal.uint) :
  allDigits (DecimalString.NilEmpty.string_of_uint d) = true.
Proof.
  induction d; simpl; try reflexivity; exact IHd.
Qed.

Lemma allDigits_String_of_int (n : Z) : 0 < n -> allDigits (String_of_int n) = true.
Proof.
  destruct n as [ | q | q]; try lia. intros _.
  unfold String_of_int. simpl.
  unfold DecimalString.NilZero.string_of_uint.
  destruct (Pos.to_uint q); try reflexivity;
    apply (allDigits_string_of_uint (_ u)).
Qed.

Lemma digits_then_suffix (a b s t : string) :
  allDigits a = true -> allDigits b = true ->
  isEntrySuffix s = true -> isEntrySuffix t = true ->
  (a ++ s)%string = (b ++ t)%string -> a = b.
Proof.
  assert (Hclash : forall c u v,
             isDigit c = true -> isEntrySuffix v = true -> v = String c u -> False).
  { intros c u v Hc Hv ->. simpl in Hv. apply Ascii.eqb_eq in Hv. subst c. discriminate. }
  revert b. induction a as [ | c a IH]; intros [ | c' b] Ha Hb Hs Ht H; simpl in *.
  - reflexivity.
  - apply andb_true_iff in Hb. destruct Hb as [Hc _].
    exfalso. exact (Hclash _ _ _ Hc Hs H).
  - apply andb_true_iff in Ha. destruct Ha as [Hc _].
    exfalso. exact (Hclash _ _ _ Hc Ht (eq_sym H)).
  - apply andb_true_iff in Ha, Hb. destruct Ha as [_ Ha], Hb as [_ Hb].
    injection H as Hc H. subst c'. f_equal. exact (IH b Ha Hb Hs Ht H).
Qed.

Lemma NoDup_map_injective_on {A B : Type} (f : A -> B) (l : list A) :
  (forall x y, In x l -> In y l -> f x = f y -> x = y) ->
  NoDup l -> NoDup (map f l).
Proof.
  intros Hinj Hnd. induction Hnd as [ | x l Hx Hnd IH]; simpl; constructor.
  - intros Hin. apply in_map_iff in Hin. destruct Hin as (y & Hy & Hin).
    assert (y = x) by (apply Hinj; simpl; auto). subst y. exact (Hx Hin).
  - apply IH. intros a b Ha Hb. apply Hinj; simpl; auto.
Qed.

(** X25. Default bus names are "Bus #" followed by the bus number counted from
    one, and tell buses apart: over the range of [int], two bus numbers
    with the same default name are the same number. *)
Theorem getDefaultBusName_injective (i j : Z)
    (Hi : - 2 ^ 31 <= i < 2 ^ 31) (Hj : - 2 ^ 31 <= j < 2 ^ 31) :
  (i < 2 ^ 31 - 1 ->
   getDefaultBusName i = ("Bus #" ++ String_of_int (i + 1))%string) /\
  (getDefaultBusName i = getDefaultBusName j -> i = j).
Proof.
  unfold getDefaultBusName. split.
  - intros Hlt. rewrite wrap_int_small by lia. reflexivity.
  - intros H. simpl in H. injection H as H.
    apply String_of_int_inj in H. exact (wrap_int_succ_inj i j Hi Hj H).
Qed.

Lemma getDefaultBusName_injective_witness :
  getDefaultBusName 2 = "Bus #3"%string /\
  getDefaultBusName 11 = "Bus #12"%string /\
  (getDefaultBusName 2 = getDefaultBusName 11 -> 2 = 11).
Proof.
  assert (H2 : - 2 ^ 31 <= 2 < 2 ^ 31) by lia.
  assert (H11 : - 2 ^ 31 <= 11 < 2 ^ 31) by lia.
  split; [ | split].
  - exact (proj1 (getDefaultBusName_injective 2 2 H2 H2) ltac:(lia)).
  - exact (proj1 (getDefaultBusName_injective 11 11 H11 H11) ltac:(lia)).
  - exact (proj2 (getDefaultBusName_injective 2 11 H2 H11)).
Defined.

Section BusNames.
Variable getAuxBusName : Z -> string.

Lemma busEntry_shape (i : Z) :
  0 <= i < 2 ^ 31 - 1 ->
  exists suffix,
    busEntry getAuxBusName i = ("Bus #" ++ String_of_int (i + 1) ++ suffix)%string /\
    isEntrySuffix suffix = true /\
    suffix = if isNotEmpty (getAuxBusName i)
             then (" (" ++ getAuxBusName i ++ ")")%string else ""%string.
Proof.
  intros Hi. unfold busEntry, getDefaultBusName.
  rewrite wrap_int_small by lia.
  destruct (isNotEmpty (getAuxBusName i)).
  - exists (" (" ++ getAuxBusName i ++ ")")%string. repeat split.
  - exists ""%string. split; [ | split; reflexivity].
    simpl. generalize (String_of_int (i + 1)).
    induction s as [ | c s IH]; simpl; [reflexivity | ].
    injection IH as IH. rewrite <- IH. reflexivity.
Qed.

Lemma busEntry_injective (i j : Z) :
  0 <= i < 2 ^ 31 - 1 -> 0 <= j < 2 ^ 31 - 1 ->
  busEntry getAuxBusName i = busEntry getAuxBusName j -> i = j.
Proof.
  intros Hi Hj H.
  destruct (busEntry_shape i Hi) as (s & Ei & Hs & _).
  destruct (busEntry_shape j Hj) as (t & Ej & Ht & _).
  rewrite Ei, Ej in H. simpl in H. injection H as H.
  apply digits_then_suffix in H; try assumption;
    try (apply allDigits_String_of_int; lia).
  apply String_of_int_inj in H. lia.
Qed.

(** X26. [getBusNames] returns one entry per bus from 0 up to the given count
    (none for a count of zero or less): the default name, followed by the
    assigned name in parentheses when the bus has one. No two entries are
    equal, whatever names the buses were given. *)
Theorem getBusNames_distinct_entries (maxNumBusses : Z)
    (Hmax : maxNumBusses < 2 ^ 31) :
  List.length (getBusNames getAuxBusName maxNumBusses) = Z.to_nat maxNumBusses /\
  (forall i, 0 <= i < maxNumBusses ->
     nth_error (getBusNames getAuxBusName maxNumBusses) (Z.to_nat i)
     = Some ("Bus #" ++ String_of_int (i + 1)
             ++ if isNotEmpty (getAuxBusName i)
                then " (" ++ getAuxBusName i ++ ")" else "")%string) /\
  NoDup (getBusNames getAuxBusName maxNumBusses).
Proof.
  unfold getBusNames. split; [ | split].
  - rewrite !length_map, length_seq. reflexivity.
  - intros i Hi. rewrite !nth_error_map.
    rewrite nth_error_seq.
    replace (Z.to_nat i <? Z.to_nat maxNumBusses)%nat with true
      by (symmetry; apply Nat.ltb_lt; lia).
    simpl. rewrite Z2Nat.id by lia.
    destruct (busEntry_shape i ltac:(lia)) as (s & Ei & _ & Es).
    rewrite Ei, Es. reflexivity.
  - apply NoDup_map_injective_on.
    + intros x y Hx Hy. apply in_map_iff in Hx, Hy.
      destruct Hx as (a & <- & Ha), Hy as (b & <- & Hb).
      apply in_seq in Ha, Hb. apply busEntry_injective; lia.
    + apply NoDup_map_injective_on; [ | apply seq_NoDup].
      intros x y _ _ H. lia.
Qed.
End BusNames.

Lemma getBusNames_distinct_entries_witness :
  let assigned := fun i : Z => if i =? 1 then "Drums"%string else ""%string in
  getBusNames assigned 3 = ["Bus #1"; "Bus #2 (Drums)"; "Bus #3"]%string /\
  NoDup (getBusNames assigned 3).
Proof.
  intros assigned.
  assert (Hmax : 3 < 2 ^ 31) by lia.
  split; [reflexivity | ].
  exact (proj2 (proj2 (getBusNames_distinct_entries assigned 3 Hmax))).
Defined.

(** X27. [getBusName], [getName] and [getShortName] never return an empty
    string, whatever names the buses were given and whatever the
    translation lookup returns; a bus with an assigned name is shown by
    that name, prefixed "S:" in the plugin's own names. *)
Theorem bus_names_never_empty
    (getAuxBusName : Z -> string) (TRANS : string -> string) (busNumber : Z) :
  isNotEmpty (getBusName getAuxBusName busNumber) = true /\
  isNotEmpty (AuxSend_getName getAuxBusName TRANS busNumber) = true /\
  isNotEmpty (AuxSend_getShortName getAuxBusName TRANS busNumber) = true /\
  (isNotEmpty (getAuxBusName busNumber) = true ->
   getBusName getAuxBusName busNumber = getAuxBusName busNumber /\
   AuxSend_getName getAuxBusName TRANS busNumber
   = AuxSend_getShortName getAuxBusName TRANS busNumber).
Proof.
  assert (Hne : forall a b : string, isNotEmpty b = true -> isNotEmpty (a ++ b) = true).
  { intros a b Hb. destruct a; [exact Hb | reflexivity]. }
  unfold getBusName, AuxSend_getName, AuxSend_getShortName.
  destruct (isNotEmpty (getAuxBusName busNumber)) eqn:E.
  - repeat split; try assumption.
  - split; [reflexivity | ].
    split; [apply Hne; reflexivity | ].
    split; [apply Hne; reflexivity | discriminate].
Qed.

Lemma bus_names_never_empty_witness :
  let assigned := fun i : Z => if i =? 1 then "Drums"%string else ""%string in
  let TRANS := fun s : string => s in
  getBusName assigned 1 = "Drums"%string /\
  AuxSend_getName assigned TRANS 1 = AuxSend_getShortName assigned TRANS 1 /\
  isNotEmpty (AuxSend_getName assigned TRANS 0) = true.
Proof.
  intros assigned TRANS.
  destruct (bus_names_never_empty assigned TRANS 1) as (_ & _ & _ & H).
  destruct (H eq_refl) as [Hb Hn].
  split; [exact Hb | split; [exact Hn | ]].
  exact (proj1 (proj2 (bus_names_never_empty assigned TRANS 0))).
Defined.

(** ** The device accessors on audio *)

(** X20. With an audio send device [fillSendBuffer] only reads: the plugin is
    unchanged, so every pull sees the same send buffer, the MIDI argument
    comes back as given, and the device's buffer receives the send
    buffer's samples where both have one and keeps its own elsewhere. *)
Theorem fillSendBuffer_audio_reads_only
    (p : InsertPlugin) (deviceOut : Buffer) (m : option MidiMessageArray)
    (Hsend : sendDeviceType p = audioDevice) :
  let pulled := fillSendBuffer p (Some deviceOut) m in
  fst (fst pulled) = p /\
  snd pulled = m /\
  (exists out,
      snd (fst pulled) = Some out /\
      frameCounts out = frameCounts deviceOut /\
      forall c f,
        getSample out c f
        = match getSample deviceOut c f with
          | Some x => Some (match getSample (sendBuffer p) c f with
                            | Some y => y
                            | None => x
                            end)
          | None => None
          end) /\
  fillSendBuffer p None m = (p, None, m).
Proof.
  unfold fillSendBuffer. rewrite Hsend. simpl.
  split; [reflexivity | ]. split; [reflexivity | ].
  split; [ | reflexivity].
  exists (copyIntersection deviceOut (sendBuffer p)).
  split; [reflexivity | ].
  split; [apply frameCounts_copyIntersection | ].
  intros c f. apply getSample_copyIntersection.
Qed.

Lemma fillSendBuffer_audio_reads_only_witness :
  let p := mkInsertPlugin "" "Out" (F64.of_Z 0) audioDevice noDevice
             [map F32.of_Z [1; 2]] [] [] [] (F64.of_Z 0) in
  let deviceOut := [map F32.of_Z [7; 8; 9]; map F32.of_Z [4; 5; 6]] in
  fst (fst (fillSendBuffer p (Some deviceOut) None)) = p /\
  snd (fst (fillSendBuffer p (Some deviceOut) None))
  = Some [map F32.of_Z [1; 2; 9]; map F32.of_Z [4; 5; 6]].
Proof.
  intros p deviceOut.
  destruct (fillSendBuffer_audio_reads_only p deviceOut None eq_refl)
    as (Hp & _ & _ & _).
  split; [exact Hp | reflexivity].
Defined.

(** X21. With an audio return device [fillReturnBuffer] overwrites the return
    buffer only where the device's buffer has a sample: a device that
    delivers fewer channels or frames leaves the rest of the previous
    return block in place. Nothing else in the plugin changes, and the
    MIDI argument is ignored. *)
Theorem fillReturnBuffer_audio_overwrites_intersection
    (p : InsertPlugin) (deviceIn : Buffer) (m : option MidiMessageArray)
    (Hret : returnDeviceType p = audioDevice) :
  let p' := fillReturnBuffer p (Some deviceIn) m in
  frameCounts (returnBuffer p') = frameCounts (returnBuffer p) /\
  (forall c f,
      getSample (returnBuffer p') c f
      = match getSample (returnBuffer p) c f with
        | Some x => Some (match getSample deviceIn c f with
                          | Some y => y
                          | None => x
                          end)
        | None => None
        end) /\
  p' = withBuffers (sendBuffer p) (returnBuffer p') (sendMidiBuffer p)
                   (returnMidiBuffer p) p /\
  fillReturnBuffer p None m = p.
Proof.
  unfold fillReturnBuffer. rewrite Hret. simpl.
  split; [apply frameCounts_copyIntersection | ].
  split; [intros c f; apply getSample_copyIntersection | ].
  split; reflexivity.
Qed.

Lemma fillReturnBuffer_audio_overwrites_intersection_witness :
  let p := mkInsertPlugin "In" "" (F64.of_Z 0) noDevice audioDevice
             [] [map F32.of_Z [1; 2; 3]; map F32.of_Z [4; 5; 6]] [] [] (F64.of_Z 0) in
  let p' := fillReturnBuffer p (Some [map F32.of_Z [9; 8]]) None in
  frameCounts (returnBuffer p') = [3; 3]%nat /\
  getSample (returnBuffer p') 0 1 = Some (F32.of_Z 8) /\
  getSample (returnBuffer p') 0 2 = Some (F32.of_Z 3).
Proof.
  intros p p'.
  destruct (fillReturnBuffer_audio_overwrites_intersection
              p [map F32.of_Z [9; 8]] None eq_refl) as (Hf & Hs & _).
  split; [exact Hf | split; [exact (Hs 0%nat 1%nat) | exact (Hs 0%nat 2%nat)]].
Defined.
